(** * Price Compare API: a shallow embedding of [main.py] and its properties

    The program is a FastAPI backend that synthesises per-platform prices
    for a product query, optionally persisting products, price entries and
    search records in a document store.

    Modelling conventions:
    - Python [float] values are modelled by exact rationals ([Q]);
      [round(x, n)] is round-half-to-even on the exact value.  The price
      bounds of a search, which come from the request, are floats that
      can also be an infinity or NaN ([Float]).
    - Strings are sequences of 8-bit characters; the string functions are
      those of Python on ASCII text.
    - [datetime] values are integers ([Z]): microseconds since the epoch.
    - The random source, the wall clock and store faults are oracles: the
      n-th call of [random.random()] returns [rnd n], the n-th call of
      [datetime.now()] returns [clock n], and the n-th store operation
      raises when [fault c n] holds for the collection [c] it touches.
    - Python dictionaries with a fixed set of keys are records; a key that
      may be absent is an [option] field.
    - Code that can raise runs in a state-and-exception monad [M] over the
      [World] (store contents and oracle cursors). *)

From Stdlib Require Import QArith ZArith Qround List String Ascii Lia Lqa Bool Arith Sorted.
Import ListNotations.

Open Scope string_scope.
Open Scope Q_scope.

(* ------------------------------------------------------------------ *)
(** ** Strings (ASCII text) *)

Module Str.

Definition is_upper (c : ascii) : bool :=
  let n := nat_of_ascii c in (65 <=? n)%nat && (n <=? 90)%nat.

Definition lower_ascii (c : ascii) : ascii :=
  if is_upper c then ascii_of_nat (nat_of_ascii c + 32) else c.

(** [str.lower()] *)
Fixpoint lower (s : string) : string :=
  match s with
  | EmptyString => EmptyString
  | String c r => String (lower_ascii c) (lower r)
  end.

(** Characters [str.split()] and [str.strip()] treat as whitespace. *)
Definition is_space (c : ascii) : bool :=
  let n := nat_of_ascii c in
  ((9 <=? n)%nat && (n <=? 13)%nat) || ((28 <=? n)%nat && (n <=? 32)%nat).

Definition is_empty (s : string) : bool :=
  match s with EmptyString => true | _ => false end.

Fixpoint lstrip (s : string) : string :=
  match s with
  | EmptyString => EmptyString
  | String c r => if is_space c then lstrip r else s
  end.

Fixpoint rstrip (s : string) : string :=
  match s with
  | EmptyString => EmptyString
  | String c r =>
      let r' := rstrip r in
      if is_space c && is_empty r' then EmptyString else String c r'
  end.

(** [str.strip()] *)
Definition strip (s : string) : string := rstrip (lstrip s).

(** [str.split()] without arguments: maximal runs of non-whitespace;
    [cur] is the word being read. *)
Fixpoint split_from (s cur : string) : list string :=
  match s with
  | EmptyString => if is_empty cur then [] else [cur]
  | String c r =>
      if is_space c
      then (if is_empty cur then split_from r "" else cur :: split_from r "")
      else split_from r (cur ++ String c "")
  end.

Definition split (s : string) : list string := split_from s "".

(** [sep.join(l)] *)
Definition join (sep : string) (l : list string) : string := String.concat sep l.

(** [s.replace(' ', '')] *)
Fixpoint remove_spaces (s : string) : string :=
  match s with
  | EmptyString => EmptyString
  | String c r => if Ascii.eqb c " "%char then remove_spaces r else String c (remove_spaces r)
  end.

Definition hex_digit (n : N) : ascii :=
  ascii_of_N (if (n <? 10)%N then 48 + n else 87 + n)%N.

(** The [digits] low hexadecimal digits of [n], most significant first. *)
Fixpoint hex (digits : nat) (n : N) : string :=
  match digits with
  | O => ""
  | S d => hex d (n / 16)%N ++ String (hex_digit (n mod 16)%N) ""
  end.

End Str.

(** [normalize] (main.py, line 92), on ASCII text. *)
Definition normalize (text : string) : string :=
  Str.join " " (Str.split (Str.strip (Str.lower text))).

(* ------------------------------------------------------------------ *)
(** ** Numbers *)

Definition Qltb (x y : Q) : bool := negb (Qle_bool y x).

(** Round-half-to-even of a rational to an integer. *)
Definition round_half_even (x : Q) : Z :=
  let f := Qfloor x in
  let r := x - inject_Z f in
  if Qltb r (1 # 2) then f
  else if Qltb (1 # 2) r then (f + 1)%Z
  else if Z.even f then f else (f + 1)%Z.

(** [round(x, ndigits)] *)
Definition round (x : Q) (ndigits : nat) : Q :=
  let s := Pos.pow 10 (Pos.of_nat ndigits) in
  match ndigits with
  | O => inject_Z (round_half_even x)
  | _ => round_half_even (x * inject_Z (Zpos s)) # s
  end.

(** A [float] as a query parameter can hold: a finite number, an infinity
    or NaN.  Prices stay finite numbers. *)
Inductive Float := Fin (x : Q) | PosInf | NegInf | NaN.

(** [v < b] and [v > b] for a finite [v] and a float [b]: every comparison
    with NaN is false. *)
Definition below (v : Q) (b : Float) : bool :=
  match b with
  | Fin x => Qltb v x
  | PosInf => true
  | NegInf => false
  | NaN => false
  end.

Definition above (v : Q) (b : Float) : bool :=
  match b with
  | Fin x => Qltb x v
  | PosInf => false
  | NegInf => true
  | NaN => false
  end.

(** [max(a, b)] of two floats: the first maximal argument. *)
Definition float_max (a b : Q) : Q := if Qltb a b then b else a.

(** [timedelta(days=1)] in microseconds. *)
Definition DAY : Z := 86400000000.

(** [datetime.min] (year 1) and [datetime.max] (the end of year 9999) in
    microseconds since the epoch, and the largest number of days a
    [timedelta] holds. *)
Definition DT_MIN : Z := (-62135596800000000)%Z.
Definition DT_MAX : Z := 253402300799999999%Z.
Definition TD_MAX_DAYS : Z := 999999999%Z.

(** [range(start, -1, -1)]: [start, start-1, ..., 0], empty when [start < 0]. *)
Definition range_down (start : Z) : list Z :=
  if (start <? 0)%Z then []
  else map (fun k => (start - Z.of_nat k)%Z) (seq 0 (S (Z.to_nat start))).

(* ------------------------------------------------------------------ *)
(** ** Catalogs (main.py, lines 59-89) *)

Definition PLATFORMS : list string :=
  ["Amazon"; "Flipkart"; "Myntra"; "AJIO"; "Meesho"; "Tata Cliq"; "Croma"].

Definition SAMPLE_IMAGES : list string :=
  ["https://images.unsplash.com/photo-1511707171634-5f897ff02aa9?w=800";
   "https://images.unsplash.com/photo-1517336714731-489689fd1ca8?w=800";
   "https://images.unsplash.com/photo-1512496015851-a90fb38ba796?w=800"].

Definition DELIVERIES : list string :=
  ["2-3 days"; "Next day"; "Standard (3-5 days)"].

(* ------------------------------------------------------------------ *)
(** ** Data model *)

(** A BSON [ObjectId]; [str] renders it as 24 hexadecimal digits. *)
Definition ObjectId := N.
Definition oid_str (o : ObjectId) : string := Str.hex 24 o.

(** [PricePoint] (line 27). *)
Record PricePoint := mkPricePoint { pt_date : Z; pt_price : Q }.

(** The dictionaries built at lines 116, 135, 161 and 180.  Keys that some
    of these literals omit are [option] fields. *)
Record ProductDoc := mkProductDoc {
  p_id : option ObjectId;
  p_name : option string;
  p_normalized_name : option string;
  p_brand : option string;
  p_category : option string;
  p_image : option string;
  p_created_at : Z;
  p_updated_at : Z
}.

Record PriceDoc := mkPriceDoc {
  pe_id : option ObjectId;
  pe_product_id : option string;
  pe_platform : string;
  pe_price : Q;
  pe_currency : string;
  pe_url : string;
  pe_rating : Q;
  pe_delivery : string;
  pe_last_updated : Z;
  pe_history : list PricePoint;
  pe_created_at : option Z;
  pe_updated_at : option Z
}.

(** The dictionary passed to [create_document] at line 270, with the
    timestamp the store helper adds. *)
Record SearchDoc := mkSearchDoc {
  sr_id : option ObjectId;
  sr_query : string;
  sr_brand : option string;
  sr_category : option string;
  sr_price_min : option Float;
  sr_price_max : option Float;
  sr_results_count : nat;
  sr_created_at : Z
}.

(** [PlatformPrice], [ProductResult], [SearchResponse] (lines 31-53). *)
Record PlatformPrice := mkPlatformPrice {
  platform : string;
  price : Q;
  currency : string;
  url : option string;
  rating : option Q;
  delivery : option string;
  last_updated : Z;
  history : list PricePoint
}.

Record ProductResult := mkProductResult {
  r_id : string;
  r_name : string;
  r_brand : option string;
  r_category : option string;
  r_image : option string;
  r_platforms : list PlatformPrice
}.

Record Filters := mkFilters {
  f_category : option string;
  f_brand : option string;
  f_price_min : option Float;
  f_price_max : option Float
}.

Record SearchResponse := mkSearchResponse {
  query : string;
  results : list ProductResult;
  filters : Filters;
  generated_at : Z
}.

(** The dictionaries built by [trending_deals] (lines 328 and 336). *)
Record Deal := mkDeal {
  d_platform : string;
  d_price : Q;
  d_currency : string;
  d_url : string;
  d_last_updated : Z
}.

Record TrendingItem := mkTrendingItem {
  ti_name : string;
  ti_brand : string;
  ti_category : string;
  ti_image : string;
  ti_platforms : list Deal;
  ti_lowest : option Deal
}.

Record TrendingResponse := mkTrendingResponse {
  items : list TrendingItem;
  tr_generated_at : Z
}.

(** Modelled from the spec: the document store of the absent [database]
    module — "a collection-oriented store exposing find-one-by-filter,
    find-many-by-filter, insert-one and insert-many operations on named
    collections (product, priceentry, searchrecord)".  A collection is the
    list of its documents in insertion order. *)
Inductive Coll := Product | PriceEntry | SearchRecord.

Record Store := mkStore {
  product : list ProductDoc;
  priceentry : list PriceDoc;
  searchrecord : list SearchDoc
}.

(** The state a request runs in: the global [db] handle ([None] when no
    store is configured), the cursors of the three oracles, and the counter
    from which fresh [ObjectId]s are made. *)
Record World := mkWorld {
  db : option Store;
  rpos : nat;
  cpos : nat;
  opos : nat;
  onext : N
}.

Definition set_db (d : option Store) (w : World) : World :=
  mkWorld d (rpos w) (cpos w) (opos w) (onext w).
Definition tick_rnd (w : World) : World :=
  mkWorld (db w) (S (rpos w)) (cpos w) (opos w) (onext w).
Definition tick_clock (w : World) : World :=
  mkWorld (db w) (rpos w) (S (cpos w)) (opos w) (onext w).
Definition tick_op (w : World) : World :=
  mkWorld (db w) (rpos w) (cpos w) (S (opos w)) (onext w).
Definition tick_oid (w : World) : World :=
  mkWorld (db w) (rpos w) (cpos w) (opos w) (onext w + 1)%N.

(* ------------------------------------------------------------------ *)
(** ** The monad *)

Inductive Exn := StoreError | ValidationError | TypeError | OverflowError.

Inductive Outcome (A : Type) :=
| Ok (a : A)
| Raised (e : Exn).
Arguments Ok {A} a.
Arguments Raised {A} e.

Definition M (A : Type) : Type := World -> Outcome A * World.

Definition ret {A} (a : A) : M A := fun w => (Ok a, w).

Definition raise {A} (e : Exn) : M A := fun w => (Raised e, w).

Definition bind {A B} (m : M A) (k : A -> M B) : M B :=
  fun w =>
    match m w with
    | (Ok a, w') => k a w'
    | (Raised e, w') => (Raised e, w')
    end.

(** [try: m except Exception: h] *)
Definition try_except {A} (m : M A) (h : Exn -> M A) : M A :=
  fun w =>
    match m w with
    | (Ok a, w') => (Ok a, w')
    | (Raised e, w') => h e w'
    end.

Notation "x <- m ;; k" := (bind m (fun x => k))
  (at level 61, m at next level, right associativity).
Notation "m ;;; k" := (bind m (fun _ => k))
  (at level 61, right associativity).

(** [for x in l: ys.append(f(x))] *)
Fixpoint mapM {A B} (f : A -> M B) (l : list A) : M (list B) :=
  match l with
  | [] => ret []
  | x :: xs => y <- f x ;; ys <- mapM f xs ;; ret (y :: ys)
  end.

Definition get_db : M (option Store) := fun w => (Ok (db w), w).

(* ------------------------------------------------------------------ *)
(** ** Vocabulary of the further properties *)

(** Every character of [s] satisfies [P]. *)
Fixpoint all_chars (P : ascii -> bool) (s : string) : bool :=
  match s with
  | EmptyString => true
  | String c r => P c && all_chars P r
  end.

Definition not_space (c : ascii) : bool := negb (Str.is_space c).

(** An ASCII character (code point below 128), and ASCII text: the text on
    which the functions of [Str] are those of Python. *)
Definition is_ascii (c : ascii) : bool := (nat_of_ascii c <? 128)%nat.

Definition ascii_text (s : string) : Prop := all_chars is_ascii s = true.

Definition is_lower (c : ascii) : bool := Ascii.eqb (Str.lower_ascii c) c.

(** A word of a split: non-empty and without whitespace. *)
Definition is_word (w : string) : Prop :=
  Str.is_empty w = false /\ all_chars not_space w = true.

(** [l'] is [l] with documents appended. *)
Definition extends {A} (l l' : list A) : Prop := exists t, l' = (l ++ t)%list.

(** Every collection of [s'] is that of [s] with documents appended. *)
Definition grows (s s' : Store) : Prop :=
  extends (product s) (product s')
  /\ extends (priceentry s) (priceentry s')
  /\ extends (searchrecord s) (searchrecord s').

Definition same_products (s s' : Store) : Prop := product s' = product s.

(** No two products of the store have the same normalized name. *)
Definition unique_names (s : Store) : Prop :=
  NoDup (map p_normalized_name (product s)).

(** The stores of two worlds are related by [R]; a world without a store
    is only related to a world without a store. *)
Definition lift (R : Store -> Store -> Prop) (w w' : World) : Prop :=
  match db w, db w' with
  | Some s, Some s' => R s s'
  | None, None => True
  | _, _ => False
  end.

(** Whatever its outcome, [m] leaves the store related by [R] to the
    store it started from. *)
Definition respects {A} (R : Store -> Store -> Prop) (m : M A) : Prop :=
  forall w, lift R w (snd (m w)).

(** A well-formed generated price entry: a price within 15% (and half a
    cent) of a base of the range 499..49999, a rating of 3.5..5.0, one of
    the three delivery strings, and 15 history points of at least 100.0. *)
Definition entry_ok (e : PriceDoc) : Prop :=
  499 * 0.85 - 0.005 <= pe_price e <= 49999 * 1.15 + 0.005
  /\ 3.5 <= pe_rating e <= 5
  /\ In (pe_delivery e) DELIVERIES
  /\ List.length (pe_history e) = 15%nat
  /\ Forall (fun p => 100.0 <= pt_price p) (pe_history e).

(** [l[:limit]] *)
Definition slice_to {A} (limit : Z) (l : list A) : list A :=
  if (limit <? 0)%Z
  then firstn (Z.to_nat (Z.of_nat (List.length l) + limit)) l
  else firstn (Z.to_nat limit) l.

(** The dictionaries of [recent_searches]: an item read from the search
    log (lines 291-299) or one of the samples (lines 305-307). *)
Inductive RecentItem :=
| Logged (query : string) (brand category : option string)
    (price_min price_max : option Float) (results_count : nat) (created_at : Z)
| Sampled (query brand category : string) (results_count : nat).

Record RecentResponse := mkRecentResponse {
  rs_items : list RecentItem;
  rs_generated_at : Z
}.

Definition SAMPLE_SEARCHES : list RecentItem :=
  [Sampled "iPhone 15" "Apple" "Mobiles" 6;
   Sampled "Sony WH-1000XM5" "Sony" "Headphones" 5;
   Sampled "MacBook Air" "Apple" "Laptops" 6].

(** Lines 291-299. *)
Definition logged_of (doc : SearchDoc) : RecentItem :=
  Logged (sr_query doc) (sr_brand doc) (sr_category doc) (sr_price_min doc)
    (sr_price_max doc) (sr_results_count doc) (sr_created_at doc).

(* ------------------------------------------------------------------ *)
(** ** Sample oracles and worlds *)

Module Sample.

(** A random source cycling through 0.0, 0.1, ..., 0.9. *)
Definition rnd0 (n : nat) : Q := Z.of_nat (n mod 10) # 10.

(** A clock advancing one microsecond per read. *)
Definition clock0 (n : nat) : Z := (1700000000000000 + Z.of_nat n)%Z.

(** A store that never faults, and one whose product collection is down. *)
Definition no_fault (c : Coll) (n : nat) : bool := false.

Definition product_down (c : Coll) (n : nat) : bool :=
  match c with Product => true | _ => false end.

Definition no_store : World := mkWorld None 0 0 0 0.

Definition empty_store : World := mkWorld (Some (mkStore [] [] [])) 0 0 0 0.

(** A stored product with one persisted price entry. *)
Definition phone : ProductDoc :=
  mkProductDoc (Some 0%N) (Some "iPhone 15") (Some "iphone 15") None
    (Some "General")
    (Some "https://images.unsplash.com/photo-1511707171634-5f897ff02aa9?w=800")
    1700000000000000 1700000000000000.

Definition phone_on_amazon : PriceDoc :=
  mkPriceDoc (Some 1%N) (Some (oid_str 0%N)) "Amazon" 999 "INR"
    "https://amazon.com/search?q=iphone 15" 4.5 "Next day" 1700000000000000 []
    (Some 1700000000000000%Z) (Some 1700000000000000%Z).

Definition phone_store : Store := mkStore [phone] [phone_on_amazon] [].

Definition one_product : World := mkWorld (Some phone_store) 0 0 0 2.

(** The transient record the product resolver returns without a store. *)
Definition transient_phone : ProductDoc :=
  mkProductDoc None (Some "iPhone 15") (Some "iphone 15") None (Some "General")
    (Some "https://images.unsplash.com/photo-1511707171634-5f897ff02aa9?w=800")
    1700000000000000 1700000000000001.

(** A search log with one record, and a cursor that returns the newest
    records first. *)
Definition a_search : SearchDoc :=
  mkSearchDoc (Some 2%N) "iPhone 15" None None None None 1 1700000000000005.

Definition searched : World :=
  mkWorld (Some (mkStore [phone] [phone_on_amazon] [a_search])) 0 0 0 3.

Definition newest_first (log : list SearchDoc) (limit : Z) : list SearchDoc :=
  firstn (Z.to_nat limit) (rev log).

End Sample.

(** The fault oracle [fault] with every search-record write succeeding. *)
Definition masked (fault : Coll -> nat -> bool) : Coll -> nat -> bool :=
  fun c n => match c with SearchRecord => false | _ => fault c n end.

(* ------------------------------------------------------------------ *)
(** ** The program *)

Section Program.

(** The oracles of the run. *)
Variable rnd : nat -> Q.
Variable clock : nat -> Z.
Variable fault : Coll -> nat -> bool.

(** *** Library primitives *)

(** [random.random()] *)
Definition random : M Q := fun w => (Ok (rnd (rpos w)), tick_rnd w).

(** [random.uniform(a, b)] is [a + (b - a) * random()]. *)
Definition uniform (a b : Q) : M Q :=
  u <- random ;; ret (a + (b - a) * u).

(** A random index below [n]. *)
Definition randbelow (n : nat) : M nat :=
  u <- random ;; ret (Z.to_nat (Qfloor (u * inject_Z (Z.of_nat n)))).

(** [random.choice(seq)] on the non-empty literal lists of the program. *)
Definition choice (seq : list string) : M string :=
  j <- randbelow (List.length seq) ;; ret (nth j seq "").

(** [pool[j] = x] *)
Fixpoint list_set {A} (j : nat) (x : A) (pool : list A) : list A :=
  match pool, j with
  | [], _ => []
  | _ :: r, O => x :: r
  | y :: r, S j' => y :: list_set j' x r
  end.

(** [random.sample(population, k)] for a small population: the pool
    algorithm of the library, which moves the last live element of the
    pool into the selected slot; [i] counts the selections made. *)
Fixpoint sample_loop (k i : nat) (pool : list string) : M (list string) :=
  match k with
  | O => ret []
  | S k' =>
      let n := List.length pool in
      j <- randbelow (n - i) ;;
      let x := nth j pool "" in
      rest <- sample_loop k' (S i) (list_set j (nth (n - i - 1) pool "") pool) ;;
      ret (x :: rest)
  end.

Definition sample (population : list string) (k : nat) : M (list string) :=
  sample_loop k 0 population.

(** [datetime.now(timezone.utc)] *)
Definition now : M Z := fun w => (Ok (clock (cpos w)), tick_clock w).

(** [ObjectId()] *)
Definition new_object_id : M ObjectId := fun w => (Ok (onext w), tick_oid w).

(** *** Synthesizer (main.py, lines 96-107) *)

Definition rand_price (base : Q) : M Q :=
  let variance := base * 0.15 in
  x <- uniform (base - variance) (base + variance) ;;
  ret (round x 2).

(** The loop of [make_history]: [cur] is the running price, [pts] the
    points appended so far. *)
Fixpoint history_loop (ds : list Z) (cur : Q) (pts : list PricePoint)
  : M (list PricePoint) :=
  match ds with
  | [] => ret pts
  | i :: ds' =>
      r <- rand_price cur ;;
      let cur := float_max 100.0 r in
      t <- now ;;
      history_loop ds' cur (pts ++ [mkPricePoint (t - i * DAY)%Z cur])%list
  end.

Definition make_history (base : Q) (days : Z) : M (list PricePoint) :=
  history_loop (range_down days) base [].

(** [t - timedelta(days=i)] (line 106).  The date of [history_loop] is a
    difference of integers: it is the date of the code whenever that is
    a [datetime], as it is for the 14 days of seeding on a clock of the
    present era.  In general the subtraction raises [OverflowError] when
    [i] is more days than a [timedelta] holds or when the date leaves the
    range of [datetime]; the clock has been read by then. *)
Definition days_before (t i : Z) : M Z :=
  if (TD_MAX_DAYS <? Z.abs i)%Z then raise OverflowError
  else
    let d := (t - i * DAY)%Z in
    if ((d <? DT_MIN) || (DT_MAX <? d))%Z then raise OverflowError
    else ret d.

(** The loop of [make_history] with the range check of each date. *)
Fixpoint history_loop_checked (ds : list Z) (cur : Q) (pts : list PricePoint)
  : M (list PricePoint) :=
  match ds with
  | [] => ret pts
  | i :: ds' =>
      r <- rand_price cur ;;
      let cur := float_max 100.0 r in
      t <- now ;;
      d <- days_before t i ;;
      history_loop_checked ds' cur (pts ++ [mkPricePoint d cur])%list
  end.

(** [make_history] (lines 101-107) for any [days], however large. *)
Definition make_history_checked (base : Q) (days : Z) : M (list PricePoint) :=
  history_loop_checked (range_down days) base [].

(** *** Store operations *)

(** Modelled from the spec: one operation of the store on collection
    [c].  Without a store the subscript [db[...]] raises; a faulting
    operation raises before it has any effect. *)
Definition with_store {A} (c : Coll) (op : Store -> A * Store) : M A :=
  fun w =>
    match db w with
    | None => (Raised TypeError, w)
    | Some s =>
        if fault c (opos w) then (Raised StoreError, tick_op w)
        else let (a, s') := op s in (Ok a, set_db (Some s') (tick_op w))
    end.

Definition has_normalized_name (norm : string) (d : ProductDoc) : bool :=
  match p_normalized_name d with
  | Some n => String.eqb n norm
  | None => false
  end.

Definition has_product_id (pid : string) (e : PriceDoc) : bool :=
  match pe_product_id e with
  | Some p => String.eqb p pid
  | None => false
  end.

(** [db["product"].find_one({"normalized_name": norm})] *)
Definition find_one_product (norm : string) : M (option ProductDoc) :=
  with_store Product (fun s => (find (has_normalized_name norm) (product s), s)).

(** [list(db["priceentry"].find({"product_id": pid}))] *)
Definition find_priceentry (pid : string) : M (list PriceDoc) :=
  with_store PriceEntry (fun s => (filter (has_product_id pid) (priceentry s), s)).

Definition set_p_id (o : ObjectId) (d : ProductDoc) : ProductDoc :=
  mkProductDoc (Some o) (p_name d) (p_normalized_name d) (p_brand d)
    (p_category d) (p_image d) (p_created_at d) (p_updated_at d).

Definition set_pe_id (o : ObjectId) (e : PriceDoc) : PriceDoc :=
  mkPriceDoc (Some o) (pe_product_id e) (pe_platform e) (pe_price e)
    (pe_currency e) (pe_url e) (pe_rating e) (pe_delivery e)
    (pe_last_updated e) (pe_history e) (pe_created_at e) (pe_updated_at e).

(** [db["product"].insert_one(doc).inserted_id]: the driver gives the
    document a fresh [_id] and appends it. *)
Definition insert_one_product (doc : ProductDoc) : M ObjectId :=
  o <- new_object_id ;;
  with_store Product
    (fun s => (o, mkStore (product s ++ [set_p_id o doc])%list (priceentry s) (searchrecord s))).

(** [db["priceentry"].insert_many(docs)]: every document gets a fresh
    [_id] (the driver writes it into the caller's dictionaries, so the
    updated documents are returned here) and all are appended. *)
Definition insert_many_priceentry (docs : list PriceDoc) : M (list PriceDoc) :=
  docs' <- mapM (fun e => o <- new_object_id ;; ret (set_pe_id o e)) docs ;;
  with_store PriceEntry
    (fun s => (docs', mkStore (product s) (priceentry s ++ docs')%list (searchrecord s))).

(** Modelled from the spec: [create_document("searchrecord", data)] of
    the absent [database] module — the record is appended to the log
    "with a creation timestamp". *)
Definition create_document_searchrecord
    (q : string) (brand category : option string) (price_min price_max : option Float)
    (results_count : nat) : M string :=
  t <- now ;;
  o <- new_object_id ;;
  with_store SearchRecord
    (fun s => (oid_str o,
               mkStore (product s) (priceentry s)
                 (searchrecord s ++
                    [mkSearchDoc (Some o) q brand category price_min price_max results_count t])%list)).

(** *** Price entries *)

(** [f"https://{p.replace(' ', '').lower()}.com"] *)
Definition platform_host (p : string) : string :=
  "https://" ++ Str.lower (Str.remove_spaces p) ++ ".com".

(** The body of the seeding loops (lines 134-148 and 179-193, which
    differ only in how [pid] and [norm] are obtained). *)
Definition seed_entry (pid norm : string) (base : Q) (p : string) : M PriceDoc :=
  price <- rand_price base ;;
  r <- uniform 3.5 5.0 ;;
  d <- choice DELIVERIES ;;
  lu <- now ;;
  h <- make_history price 14 ;;
  ca <- now ;;
  ua <- now ;;
  ret (mkPriceDoc None (Some pid) p price "INR"
         (platform_host p ++ "/search?q=" ++ norm)
         (round r 1) d lu h (Some ca) (Some ua)).

(** Lines 131-148 and 176-193: draw the base, then one entry per platform. *)
Definition seed_entries (pid norm : string) : M (list PriceDoc) :=
  base <- uniform 499 49999 ;;
  mapM (seed_entry pid norm base) PLATFORMS.

(** The body of the ephemeral loop (lines 160-170). *)
Definition ephemeral_entry (base : Q) (p : string) : M PriceDoc :=
  price <- rand_price base ;;
  r <- uniform 3.5 5.0 ;;
  d <- choice DELIVERIES ;;
  lu <- now ;;
  h <- make_history price 14 ;;
  ret (mkPriceDoc None None p price "INR" (platform_host p)
         (round r 1) d lu h None None).

(** Lines 157-171. *)
Definition ephemeral_entries : M (list PriceDoc) :=
  base <- uniform 499 49999 ;;
  mapM (ephemeral_entry base) PLATFORMS.

Definition is_nil {A} (l : list A) : bool :=
  match l with [] => true | _ => false end.

(** *** Product resolver (lines 110-151)

    A configured store handle and a found document are taken to be truthy
    (lines 112 and 113). *)

(** [category or "General"] *)
Definition category_or_general (category : option string) : string :=
  match category with
  | Some c => if Str.is_empty c then "General" else c
  | None => "General"
  end.

Definition ensure_product_in_db (name : string) (brand category : option string)
  : M ProductDoc :=
  let norm := normalize name in
  d <- get_db ;;
  existing <- (match d with
               | Some _ => find_one_product norm
               | None => ret None
               end) ;;
  match existing with
  | Some doc => ret doc
  | None =>
      img <- choice SAMPLE_IMAGES ;;
      ca <- now ;;
      ua <- now ;;
      let doc := mkProductDoc None (Some name) (Some norm) brand
                   (Some (category_or_general category)) (Some img) ca ua in
      d <- get_db ;;
      match d with
      | None => ret doc
      | Some _ =>
          inserted_id <- insert_one_product doc ;;
          let doc := set_p_id inserted_id doc in
          seeded <- seed_entries (oid_str inserted_id) norm ;;
          (if is_nil seeded then ret tt
           else insert_many_priceentry seeded ;;; ret tt) ;;;
          ret doc
      end
  end.

(** *** Price resolver (lines 154-197) *)

Definition find_or_generate_prices (product_doc : ProductDoc) : M (list PriceDoc) :=
  d <- get_db ;;
  match d, p_id product_doc with
  | Some _, Some oid =>
      items <- find_priceentry (oid_str oid) ;;
      if is_nil items then
        seeded <- seed_entries (oid_str oid)
                    (match p_normalized_name product_doc with
                     | Some n => n
                     | None => ""
                     end) ;;
        if is_nil seeded then ret items
        else insert_many_priceentry seeded
      else ret items
  | _, _ => ephemeral_entries
  end.

(** *** Search (lines 218-281) *)

(** The closure [in_range] of lines 234-239. *)
Definition in_range (price_min price_max : option Float) (v : Q) : bool :=
  if (match price_min with Some lo => below v lo | None => false end) then false
  else if (match price_max with Some hi => above v hi | None => false end) then false
  else true.

Definition is_some {A} (o : option A) : bool :=
  match o with Some _ => true | None => false end.

(** Lines 233-240. *)
Definition apply_price_filter (price_min price_max : option Float) (prices : list PriceDoc)
  : list PriceDoc :=
  if is_some price_min || is_some price_max
  then filter (fun p => in_range price_min price_max (pe_price p)) prices
  else prices.

Definition rating_ok (r : Q) : bool := Qle_bool 0 r && Qle_bool r 5.

(** The [PlatformPrice] constructor call of lines 249-252: keys that are
    not fields are dropped, and the
    constraint [ge=0, le=5] on [rating] is validated. *)
Definition platform_price_of (p : PriceDoc) : PlatformPrice :=
  mkPlatformPrice (pe_platform p) (pe_price p) (pe_currency p)
    (Some (pe_url p)) (Some (pe_rating p)) (Some (pe_delivery p))
    (pe_last_updated p) (pe_history p).

Definition to_platform_price (p : PriceDoc) : M PlatformPrice :=
  if rating_ok (pe_rating p) then ret (platform_price_of p)
  else raise ValidationError.

(** Lines 267-279: the search record is written inside [try], and any
    exception is passed over. *)
Definition record_search
    (q : string) (brand category : option string) (price_min price_max : option Float)
    (results_count : nat) : M unit :=
  try_except
    (d <- get_db ;;
     match d with
     | Some _ =>
         create_document_searchrecord q brand category price_min price_max
           results_count ;;; ret tt
     | None => ret tt
     end)
    (fun _ => ret tt).

Definition search_products
    (q : string) (category brand : option string) (price_min price_max : option Float)
  : M SearchResponse :=
  product_doc <- ensure_product_in_db q brand category ;;
  prices <- find_or_generate_prices product_doc ;;
  let prices := apply_price_filter price_min price_max prices in
  fresh <- new_object_id ;;
  ps <- mapM to_platform_price prices ;;
  let result :=
    mkProductResult
      (oid_str (match p_id product_doc with Some o => o | None => fresh end))
      (match p_name product_doc with Some n => n | None => q end)
      (p_brand product_doc) (p_category product_doc) (p_image product_doc) ps in
  t <- now ;;
  let response :=
    mkSearchResponse q [result] (mkFilters category brand price_min price_max) t in
  record_search q brand category price_min price_max
    (List.length (r_platforms result)) ;;;
  ret response.

(** *** Trending deals (lines 313-344) *)

(** [range(limit)] *)
Definition range (limit : Z) : list Z :=
  map Z.of_nat (seq 0 (Z.to_nat limit)).

(** [min(l, key=lambda x: x["price"])]: the first entry of least price. *)
Fixpoint min_from (best : Deal) (l : list Deal) : Deal :=
  match l with
  | [] => best
  | x :: r => min_from (if Qltb (d_price x) (d_price best) then x else best) r
  end.

Definition lowest_of (l : list Deal) : option Deal :=
  match l with
  | [] => None
  | x :: r => Some (min_from x r)
  end.

Definition TRENDING_NAMES : list string :=
  ["iPhone 15"; "Samsung Galaxy S23"; "Sony WH-1000XM5";
   "Nike Air Max"; "Dell XPS 13"; "MacBook Air M2"].

Definition deal (name : string) (base : Q) (p : string) : M Deal :=
  pr <- rand_price base ;;
  t <- now ;;
  ret (mkDeal p pr "INR" (platform_host p ++ "/search?q=" ++ name) t).

Definition trending_item (_ : Z) : M TrendingItem :=
  name <- choice TRENDING_NAMES ;;
  brand <- choice ["Apple"; "Samsung"; "Sony"; "Nike"; "Dell"; "Apple"] ;;
  category <- choice ["Mobiles"; "Headphones"; "Shoes"; "Laptops"] ;;
  base <- uniform 999 149999 ;;
  chosen <- sample PLATFORMS (Nat.min 4 (List.length PLATFORMS)) ;;
  platform_prices <- mapM (deal name base) chosen ;;
  let lowest := lowest_of platform_prices in
  img <- choice SAMPLE_IMAGES ;;
  ret (mkTrendingItem name brand category img platform_prices lowest).

Definition trending_deals (limit : Z) : M TrendingResponse :=
  its <- mapM trending_item (range limit) ;;
  t <- now ;;
  ret (mkTrendingResponse its t).

(* ---------------------------------------------------------------- *)
(** ** Closed forms of the generators

    Every generator is a function of the oracle cursors it starts from;
    these definitions name the value it computes. *)

(** The world after [nr] random draws and [nc] clock reads. *)
Definition advance (nr nc : nat) (w : World) : World :=
  mkWorld (db w) (rpos w + nr) (cpos w + nc) (opos w) (onext w).

(** The value of [rand_price base] when the draw is [u]. *)
Definition jitter (base u : Q) : Q :=
  round ((base - base * 0.15) + ((base + base * 0.15) - (base - base * 0.15)) * u) 2.

(** The index [randbelow n] returns when the draw is [u]. *)
Definition index_of (u : Q) (n : nat) : nat :=
  Z.to_nat (Qfloor (u * inject_Z (Z.of_nat n))).

(** The points [history_loop] appends from cursors [r] and [c]. *)
Fixpoint history_points (ds : list Z) (cur : Q) (r c : nat) : list PricePoint :=
  match ds with
  | [] => []
  | i :: ds' =>
      let cur' := float_max 100.0 (jitter cur (rnd r)) in
      mkPricePoint (clock c - i * DAY)%Z cur' :: history_points ds' cur' (S r) (S c)
  end.

(** The results of [mapM f l] when [f x] computes [v x r c] from cursors
    [r] and [c] and uses [nr] draws and [nc] clock reads. *)
Fixpoint map_at {A B} (v : A -> nat -> nat -> B) (nr nc : nat) (l : list A)
    (r c : nat) : list B :=
  match l with
  | [] => []
  | x :: xs => v x r c :: map_at v nr nc xs (r + nr) (c + nc)
  end.

Definition rating_at (r : nat) : Q := round (3.5 + (5.0 - 3.5) * rnd r) 1.

Definition delivery_at (r : nat) : string :=
  nth (index_of (rnd r) (List.length DELIVERIES)) DELIVERIES "".

Definition seed_entry_at (pid norm : string) (base : Q) (p : string) (r c : nat)
  : PriceDoc :=
  let price := jitter base (rnd r) in
  mkPriceDoc None (Some pid) p price "INR"
    (platform_host p ++ "/search?q=" ++ norm)
    (rating_at (r + 1)) (delivery_at (r + 2)) (clock c)
    (history_points (range_down 14) price (r + 3) (c + 1))
    (Some (clock (c + 16))) (Some (clock (c + 17))).

Definition ephemeral_entry_at (base : Q) (p : string) (r c : nat) : PriceDoc :=
  let price := jitter base (rnd r) in
  mkPriceDoc None None p price "INR" (platform_host p)
    (rating_at (r + 1)) (delivery_at (r + 2)) (clock c)
    (history_points (range_down 14) price (r + 3) (c + 1))
    None None.

(** The base price drawn at cursor [r] (lines 131, 157 and 176). *)
Definition base_at (r : nat) : Q := 499 + (49999 - 499) * rnd r.


(** Every date from the clock reads of a history of [days] days back to
    [days] days before them is a [datetime]. *)
Definition dates_representable (days : Z) (w : World) : Prop :=
  forall n, (cpos w <= n <= cpos w + Z.to_nat days)%nat ->
            (DT_MIN + days * DAY <= clock n <= DT_MAX)%Z.

(** A price is not below a bound, and not above one.  A NaN bound, which
    compares false with every price, constrains nothing. *)
Definition at_least (l : Float) (v : Q) : Prop :=
  match l with
  | Fin x => x <= v
  | PosInf => False
  | NegInf => True
  | NaN => True
  end.

Definition at_most (h : Float) (v : Q) : Prop :=
  match h with
  | Fin x => v <= x
  | PosInf => True
  | NegInf => False
  | NaN => True
  end.

(** A price lies within the optional inclusive bounds; an absent bound
    imposes no constraint. *)
Definition within_bounds (lo hi : option Float) (v : Q) : Prop :=
  (forall l, lo = Some l -> at_least l v) /\ (forall h, hi = Some h -> at_most h v).

(** [l <= v] and [v <= h] as floats compare: false when the bound is NaN. *)
Definition float_le_price (l : Float) (v : Q) : Prop :=
  match l with
  | Fin x => x <= v
  | PosInf => False
  | NegInf => True
  | NaN => False
  end.

Definition price_le_float (v : Q) (h : Float) : Prop :=
  match h with
  | Fin x => v <= x
  | PosInf => True
  | NegInf => False
  | NaN => False
  end.

(** [lo <= v <= hi] for the bounds that are given. *)
Definition lies_within (lo hi : option Float) (v : Q) : Prop :=
  (forall l, lo = Some l -> float_le_price l v)
  /\ (forall h, hi = Some h -> price_le_float v h).

(** The metadata and the platform list of a search result. *)
Definition result_of (q : string) (doc : ProductDoc) (fresh : ObjectId)
    (ps : list PlatformPrice) : ProductResult :=
  mkProductResult
    (oid_str (match p_id doc with Some o => o | None => fresh end))
    (match p_name doc with Some n => n | None => q end)
    (p_brand doc) (p_category doc) (p_image doc) ps.

(** The store after one more search record. *)
Definition log_search (rec : SearchDoc) (s : Store) : Store :=
  mkStore (product s) (priceentry s) (searchrecord s ++ [rec])%list.

(** The search-record collection of the store, if a store is configured. *)
Definition log_of (w : World) : option (list SearchDoc) :=
  option_map searchrecord (db w).

(** The documents [insert_many] hands back: ids given in order from [o]. *)
Fixpoint assign_ids (o : ObjectId) (docs : list PriceDoc) : list PriceDoc :=
  match docs with
  | [] => []
  | e :: r => set_pe_id o e :: assign_ids (o + 1)%N r
  end.

(** The world after [n] fresh [ObjectId]s. *)
Definition skip_oids (n : N) (w : World) : World :=
  mkWorld (db w) (rpos w) (cpos w) (opos w) (onext w + n)%N.

(** The price resolver takes a generating path in [w]: the ephemeral one,
    or the seeding of an empty persisted set (whose two store operations
    do not fault). *)
Definition generates (product_doc : ProductDoc) (w : World) : Prop :=
  (db w = None \/ p_id product_doc = None)
  \/ exists s oid,
       db w = Some s /\ p_id product_doc = Some oid
       /\ filter (has_product_id (oid_str oid)) (priceentry s) = []
       /\ fault PriceEntry (opos w) = false
       /\ fault PriceEntry (S (opos w)) = false.

(** An ephemeral entry [e] and a seeded entry [s] agree on what is
    synthesized; the seeded URL carries the search query in addition,
    and only the seeded entry has the persistence fields. *)
Definition same_synthesis (norm : string) (e s : PriceDoc) : Prop :=
  pe_platform e = pe_platform s
  /\ pe_price e = pe_price s
  /\ pe_currency e = pe_currency s
  /\ pe_rating e = pe_rating s
  /\ pe_delivery e = pe_delivery s
  /\ map pt_price (pe_history e) = map pt_price (pe_history s)
  /\ pe_url e = platform_host (pe_platform e)
  /\ pe_url s = pe_url e ++ "/search?q=" ++ norm
  /\ pe_product_id e = None /\ pe_created_at e = None /\ pe_updated_at e = None.

(** The selection [sample_loop] makes from cursor [r]. *)
Fixpoint sample_at (k i : nat) (pool : list string) (r : nat) : list string :=
  match k with
  | O => []
  | S k' =>
      let n := List.length pool in
      let j := index_of (rnd r) (n - i) in
      nth j pool ""
        :: sample_at k' (S i) (list_set j (nth (n - i - 1) pool "") pool) (S r)
  end.

Definition deal_at (name : string) (base : Q) (p : string) (r c : nat) : Deal :=
  mkDeal p (jitter base (rnd r)) "INR" (platform_host p ++ "/search?q=" ++ name)
    (clock c).

(** The [lowest] entry of an item is one of its platform entries and no
    platform entry of the item is cheaper. *)
Definition lowest_is_min (it : TrendingItem) : Prop :=
  exists low,
    ti_lowest it = Some low
    /\ In low (ti_platforms it)
    /\ Forall (fun d => d_price low <= d_price d) (ti_platforms it).

(** The platform entries of an item are for four distinct platforms of
    [PLATFORMS]. *)
Definition platforms_sampled (it : TrendingItem) : Prop :=
  List.length (ti_platforms it) = 4%nat
  /\ NoDup (map d_platform (ti_platforms it))
  /\ incl (map d_platform (ti_platforms it)) PLATFORMS.


(** [m] never changes the search-record collection, nor whether a store
    is configured. *)
Definition keeps_log {A} (m : M A) : Prop :=
  forall w, log_of (snd (m w)) = log_of w.

(** The entries a search keeps from the resolved set [prices]. *)
Definition kept (price_min price_max : option Float) (prices : list PriceDoc)
  : list PriceDoc :=
  filter (fun p => in_range price_min price_max (pe_price p)) prices.

(** Every entry of [l] passes the validation of [PlatformPrice]. *)
Definition valid (l : list PriceDoc) : bool :=
  forallb (fun p => rating_ok (pe_rating p)) l.

(** The response assembled from the resolved product and prices in
    world [w2]. *)
Definition response_of (q : string) (category brand : option string)
    (price_min price_max : option Float)
    (doc : ProductDoc) (prices : list PriceDoc) (w2 : World) : SearchResponse :=
  mkSearchResponse q
    [result_of q doc (onext w2) (map platform_price_of (kept price_min price_max prices))]
    (mkFilters category brand price_min price_max)
    (clock (cpos (tick_oid w2))).

(** The world in which the search record is written. *)
Definition recording_world (w2 : World) : World := tick_clock (tick_oid w2).

(** The record the product resolver builds for a new product (lines
    116-124) from cursors [r] and [c]. *)
Definition transient_doc (name : string) (brand category : option string)
    (r c : nat) : ProductDoc :=
  mkProductDoc None (Some name) (Some (normalize name)) brand
    (Some (category_or_general category))
    (Some (nth (index_of (rnd r) (List.length SAMPLE_IMAGES)) SAMPLE_IMAGES ""))
    (clock c) (clock (c + 1)).

(** The entries the product resolver seeds for the product [o] it creates
    in world [w] (lines 131-148), with the ids the store gives them. *)
Definition seeded_for (name : string) (o : ObjectId) (w : World) : list PriceDoc :=
  assign_ids (o + 1)%N
    (map_at (seed_entry_at (oid_str o) (normalize name) (base_at (rpos w + 1)))
       18 18 PLATFORMS (rpos w + 2) (cpos w + 2)).

(** *** Recent searches (lines 284-310) *)

(** Modelled from the spec: the documents the cursor
    [db["searchrecord"].find({}).sort("created_at", -1).limit(limit)]
    yields — "find-many-by-filter with sort/limit" — as a function of the
    collection and the limit. *)
Variable recent_query : list SearchDoc -> Z -> list SearchDoc.

Definition recent_searches (limit : Z) : M RecentResponse :=
  d <- get_db ;;
  items <- (match d with
            | Some _ =>
                try_except
                  (docs <- with_store SearchRecord
                             (fun s => (recent_query (searchrecord s) limit, s)) ;;
                   ret (map logged_of docs))
                  (fun _ => ret [])
            | None => ret []
            end) ;;
  let items := if is_nil items then slice_to limit SAMPLE_SEARCHES else items in
  t <- now ;;
  ret (mkRecentResponse items t).

(** The items [recent_searches] reads from the log in world [w]. *)
Definition logged_items (limit : Z) (w : World) : list RecentItem :=
  match db w with
  | Some s =>
      if fault SearchRecord (opos w) then []
      else map logged_of (recent_query (searchrecord s) limit)
  | None => []
  end.

(** A deal of a trending item is priced in INR and links to the search of
    the item's name on its platform. *)
Definition deal_ok (name : string) (d : Deal) : Prop :=
  d_currency d = "INR"
  /\ d_url d = platform_host (d_platform d) ++ "/search?q=" ++ name.

(* ---------------------------------------------------------------- *)
(** ** Properties *)

(** *** The monad and the oracle cursors *)

Lemma bind_ok {A B} (m : M A) (k : A -> M B) w a w' :
  m w = (Ok a, w') -> bind m k w = k a w'.
Proof. unfold bind; intros ->; reflexivity. Qed.

Lemma bind_raised {A B} (m : M A) (k : A -> M B) w e w' :
  m w = (Raised e, w') -> bind m k w = (Raised e, w').
Proof. unfold bind; intros ->; reflexivity. Qed.

Lemma advance_0 w : advance 0 0 w = w.
Proof. destruct w; unfold advance; simpl; now rewrite !Nat.add_0_r. Qed.

Lemma advance_advance a b a' b' w :
  advance a' b' (advance a b w) = advance (a + a') (b + b') w.
Proof. unfold advance; simpl; now rewrite !Nat.add_assoc. Qed.

Lemma tick_rnd_advance w : tick_rnd w = advance 1 0 w.
Proof. destruct w; unfold tick_rnd, advance; simpl. now rewrite Nat.add_0_r, Nat.add_1_r. Qed.

Lemma tick_clock_advance w : tick_clock w = advance 0 1 w.
Proof. destruct w; unfold tick_clock, advance; simpl. now rewrite Nat.add_0_r, Nat.add_1_r. Qed.

(** *** Closed forms *)

Lemma random_eq w : random w = (Ok (rnd (rpos w)), advance 1 0 w).
Proof. unfold random; now rewrite tick_rnd_advance. Qed.

Lemma uniform_eq a b w :
  uniform a b w = (Ok (a + (b - a) * rnd (rpos w)), advance 1 0 w).
Proof. unfold uniform; now rewrite (bind_ok _ _ _ _ _ (random_eq w)). Qed.

Lemma choice_eq l w :
  choice l w = (Ok (nth (index_of (rnd (rpos w)) (List.length l)) l ""), advance 1 0 w).
Proof.
  unfold choice, randbelow.
  rewrite (bind_ok _ _ _ _ _ (bind_ok _ _ _ _ _ (random_eq w))). reflexivity.
Qed.

Lemma now_eq w : now w = (Ok (clock (cpos w)), advance 0 1 w).
Proof. unfold now; now rewrite tick_clock_advance. Qed.

Lemma rand_price_eq base w :
  rand_price base w = (Ok (jitter base (rnd (rpos w))), advance 1 0 w).
Proof. unfold rand_price; now rewrite (bind_ok _ _ _ _ _ (uniform_eq _ _ w)). Qed.

Lemma history_loop_eq ds : forall cur pts w,
  history_loop ds cur pts w =
  (Ok (pts ++ history_points ds cur (rpos w) (cpos w))%list,
   advance (List.length ds) (List.length ds) w).
Proof.
  induction ds as [|i ds IH]; intros cur pts w; simpl.
  - now rewrite app_nil_r, advance_0.
  - rewrite (bind_ok _ _ _ _ _ (rand_price_eq cur w)).
    rewrite (bind_ok _ _ _ _ _ (now_eq _)).
    rewrite IH, advance_advance, advance_advance, <- app_assoc. simpl.
    now rewrite !Nat.add_0_r, !Nat.add_1_r.
Qed.

Lemma make_history_eq base days w :
  make_history base days w =
  (Ok (history_points (range_down days) base (rpos w) (cpos w)),
   advance (List.length (range_down days)) (List.length (range_down days)) w).
Proof. unfold make_history; now rewrite history_loop_eq. Qed.

Lemma mapM_at {A B} (f : A -> M B) (v : A -> nat -> nat -> B) nr nc l :
  (forall x w, f x w = (Ok (v x (rpos w) (cpos w)), advance nr nc w)) ->
  forall w,
    mapM f l w =
    (Ok (map_at v nr nc l (rpos w) (cpos w)),
     advance (List.length l * nr) (List.length l * nc) w).
Proof.
  intro Hf. induction l as [|x l IH]; intro w; cbn [mapM map_at List.length].
  - now rewrite advance_0.
  - rewrite (bind_ok _ _ _ _ _ (Hf x w)).
    rewrite (bind_ok _ _ _ _ _ (IH _)).
    now rewrite advance_advance.
Qed.

Lemma map_at_length {A B} (v : A -> nat -> nat -> B) nr nc l : forall r c,
  List.length (map_at v nr nc l r c) = List.length l.
Proof. induction l; intros; simpl; [reflexivity | now rewrite IHl]. Qed.

Lemma map_at_nth_error {A B} (v : A -> nat -> nat -> B) nr nc l : forall i r c,
  nth_error (map_at v nr nc l r c) i =
  option_map (fun x => v x (r + i * nr)%nat (c + i * nc)%nat) (nth_error l i).
Proof.
  induction l as [|x l IH]; intros [|i] r c; simpl; try reflexivity.
  - now rewrite !Nat.add_0_r.
  - rewrite IH. now rewrite !Nat.add_assoc.
Qed.

Lemma map_map_at {A B C} (g : B -> C) (v : A -> nat -> nat -> B) nr nc l : forall r c,
  map g (map_at v nr nc l r c) = map_at (fun x r c => g (v x r c)) nr nc l r c.
Proof. induction l; intros; simpl; [reflexivity | now rewrite IHl]. Qed.

Lemma map_at_const {A B} (g : A -> B) nr nc l : forall r c,
  map_at (fun x _ _ => g x) nr nc l r c = map g l.
Proof. induction l; intros; simpl; [reflexivity | now rewrite IHl]. Qed.

Lemma seed_entry_eq pid norm base p w :
  seed_entry pid norm base p w =
  (Ok (seed_entry_at pid norm base p (rpos w) (cpos w)), advance 18 18 w).
Proof.
  unfold seed_entry.
  rewrite (bind_ok _ _ _ _ _ (rand_price_eq _ _)).
  rewrite (bind_ok _ _ _ _ _ (uniform_eq _ _ _)).
  rewrite (bind_ok _ _ _ _ _ (choice_eq _ _)).
  rewrite (bind_ok _ _ _ _ _ (now_eq _)).
  rewrite (bind_ok _ _ _ _ _ (make_history_eq _ _ _)).
  rewrite (bind_ok _ _ _ _ _ (now_eq _)).
  rewrite (bind_ok _ _ _ _ _ (now_eq _)).
  rewrite !advance_advance. unfold ret, seed_entry_at, rating_at, delivery_at.
  cbn [rpos cpos advance]. change (List.length (range_down 14)) with 15%nat.
  cbn [Nat.add]. rewrite ?Nat.add_0_r. reflexivity.
Qed.

Lemma ephemeral_entry_eq base p w :
  ephemeral_entry base p w =
  (Ok (ephemeral_entry_at base p (rpos w) (cpos w)), advance 18 16 w).
Proof.
  unfold ephemeral_entry.
  rewrite (bind_ok _ _ _ _ _ (rand_price_eq _ _)).
  rewrite (bind_ok _ _ _ _ _ (uniform_eq _ _ _)).
  rewrite (bind_ok _ _ _ _ _ (choice_eq _ _)).
  rewrite (bind_ok _ _ _ _ _ (now_eq _)).
  rewrite (bind_ok _ _ _ _ _ (make_history_eq _ _ _)).
  rewrite !advance_advance. unfold ret, ephemeral_entry_at, rating_at, delivery_at.
  cbn [rpos cpos advance]. change (List.length (range_down 14)) with 15%nat.
  cbn [Nat.add]. rewrite ?Nat.add_0_r. reflexivity.
Qed.

Lemma seed_entries_eq pid norm w :
  seed_entries pid norm w =
  (Ok (map_at (seed_entry_at pid norm (base_at (rpos w))) 18 18 PLATFORMS
         (rpos w + 1) (cpos w)),
   advance (1 + 7 * 18) (7 * 18) w).
Proof.
  unfold seed_entries.
  rewrite (bind_ok _ _ _ _ _ (uniform_eq _ _ _)).
  rewrite (mapM_at _ _ _ _ _ (seed_entry_eq pid norm _)).
  rewrite advance_advance. cbn [rpos cpos advance]. rewrite Nat.add_0_r.
  reflexivity.
Qed.

Lemma ephemeral_entries_eq w :
  ephemeral_entries w =
  (Ok (map_at (ephemeral_entry_at (base_at (rpos w))) 18 16 PLATFORMS
         (rpos w + 1) (cpos w)),
   advance (1 + 7 * 18) (7 * 16) w).
Proof.
  unfold ephemeral_entries.
  rewrite (bind_ok _ _ _ _ _ (uniform_eq _ _ _)).
  rewrite (mapM_at _ _ _ _ _ (ephemeral_entry_eq _)).
  rewrite advance_advance. cbn [rpos cpos advance]. rewrite Nat.add_0_r.
  reflexivity.
Qed.

(** *** The synthesizer *)

Lemma Qltb_lt x y : Qltb x y = true <-> x < y.
Proof.
  unfold Qltb. rewrite negb_true_iff. split; intro H.
  - apply Qnot_le_lt. intro Hle. apply Qle_bool_iff in Hle. congruence.
  - destruct (Qle_bool y x) eqn:E; [|reflexivity].
    apply Qle_bool_iff in E. exfalso. exact (Qlt_not_le _ _ H E).
Qed.

Lemma Qltb_ge x y : Qltb x y = false <-> y <= x.
Proof.
  unfold Qltb. rewrite negb_false_iff. apply Qle_bool_iff.
Qed.

Lemma float_max_floor r : 100.0 <= float_max 100.0 r.
Proof.
  unfold float_max. destruct (Qltb 100.0 r) eqn:E.
  - apply Qlt_le_weak, Qltb_lt, E.
  - apply Qle_refl.
Qed.

Lemma history_points_length ds : forall cur r c,
  List.length (history_points ds cur r c) = List.length ds.
Proof. induction ds; intros; simpl; [reflexivity | now rewrite IHds]. Qed.

Lemma history_points_floor ds : forall cur r c,
  Forall (fun p => 100.0 <= pt_price p) (history_points ds cur r c).
Proof.
  induction ds; intros; simpl; constructor; [apply float_max_floor | apply IHds].
Qed.





(** *** The range of the dates *)

Lemma days_before_ok t i w :
  (0 <= i <= TD_MAX_DAYS)%Z -> (DT_MIN <= t - i * DAY <= DT_MAX)%Z ->
  days_before t i w = (Ok (t - i * DAY)%Z, w).
Proof.
  intros Hi Hd. unfold days_before.
  assert (E1 : (TD_MAX_DAYS <? Z.abs i)%Z = false) by (apply Z.ltb_ge; lia).
  assert (E2 : (t - i * DAY <? DT_MIN)%Z = false) by (apply Z.ltb_ge; lia).
  assert (E3 : (DT_MAX <? t - i * DAY)%Z = false) by (apply Z.ltb_ge; lia).
  cbv zeta. now rewrite E1, E2, E3.
Qed.

Lemma history_loop_checked_eq ds : forall cur pts w,
  (forall i n, In i ds -> (cpos w <= n < cpos w + List.length ds)%nat ->
     (0 <= i <= TD_MAX_DAYS)%Z /\ (DT_MIN <= clock n - i * DAY <= DT_MAX)%Z) ->
  history_loop_checked ds cur pts w = history_loop ds cur pts w.
Proof.
  induction ds as [|i ds IH]; intros cur pts w H; [reflexivity|].
  cbn [history_loop_checked history_loop].
  rewrite !(bind_ok _ _ _ _ _ (rand_price_eq cur w)).
  rewrite !(bind_ok _ _ _ _ _ (now_eq _)).
  assert (Hn : (cpos w <= cpos (advance 1 0 w) < cpos w + List.length (i :: ds))%nat)
    by (cbn [advance cpos List.length]; lia).
  destruct (H i _ (or_introl eq_refl) Hn) as [Hi Hd].
  rewrite (bind_ok _ _ _ _ _ (days_before_ok _ _ _ Hi Hd)).
  apply IH. intros j n Hj Hn'. apply H; [now right|].
  cbn [advance cpos List.length] in *. lia.
Qed.

Lemma range_down_In days i : In i (range_down days) -> (0 <= i <= days)%Z.
Proof.
  unfold range_down. destruct (days <? 0)%Z eqn:E; [contradiction|].
  apply Z.ltb_ge in E.
  intro H. apply in_map_iff in H. destruct H as [k [<- Hk]].
  apply in_seq in Hk. lia.
Qed.

(** While the dates are representable the range check passes. *)
Lemma make_history_checked_eq base days w :
  ((0 <= days)%Z -> dates_representable days w) ->
  make_history_checked base days w = make_history base days w.
Proof.
  intro H. unfold make_history_checked, make_history.
  apply history_loop_checked_eq. intros i n Hi Hn.
  apply range_down_In in Hi.
  assert (Hd : (0 <= days)%Z) by lia. specialize (H Hd n).
  assert (Hlen : List.length (range_down days) = S (Z.to_nat days)).
  { unfold range_down. destruct (days <? 0)%Z eqn:E; [apply Z.ltb_lt in E; lia|].
    now rewrite length_map, length_seq. }
  rewrite Hlen in Hn.
  assert (Hw : (cpos w <= n <= cpos w + Z.to_nat days)%nat) by lia.
  specialize (H Hw). unfold DT_MIN, DT_MAX, TD_MAX_DAYS, DAY in *. lia.
Qed.


Section MonotoneClock.

(** The wall clock does not run backwards between two reads. *)
Hypothesis clock_step : forall n, (clock n <= clock (S n))%Z.





End MonotoneClock.

(** *** Store operations *)

Lemma with_store_ok {A} c (op : Store -> A * Store) w s :
  db w = Some s -> fault c (opos w) = false ->
  with_store c op w = (Ok (fst (op s)), set_db (Some (snd (op s))) (tick_op w)).
Proof. unfold with_store; intros -> ->. now destruct (op s). Qed.

Lemma with_store_fault {A} c (op : Store -> A * Store) w s :
  db w = Some s -> fault c (opos w) = true ->
  with_store c op w = (Raised StoreError, tick_op w).
Proof. unfold with_store; now intros -> ->. Qed.

Lemma set_db_tick_op w s : db w = Some s -> set_db (Some s) (tick_op w) = tick_op w.
Proof. unfold set_db, tick_op; simpl; now intros ->. Qed.

Lemma find_one_product_ok norm w s :
  db w = Some s -> fault Product (opos w) = false ->
  find_one_product norm w = (Ok (find (has_normalized_name norm) (product s)), tick_op w).
Proof.
  intros Hdb Hf. unfold find_one_product.
  rewrite (with_store_ok _ _ _ _ Hdb Hf); simpl. now rewrite set_db_tick_op.
Qed.

Lemma find_priceentry_ok pid w s :
  db w = Some s -> fault PriceEntry (opos w) = false ->
  find_priceentry pid w = (Ok (filter (has_product_id pid) (priceentry s)), tick_op w).
Proof.
  intros Hdb Hf. unfold find_priceentry.
  rewrite (with_store_ok _ _ _ _ Hdb Hf); simpl. now rewrite set_db_tick_op.
Qed.

Lemma is_nil_false {A} (l : list A) : l <> [] -> is_nil l = false.
Proof. destruct l; [congruence | reflexivity]. Qed.

(** *** The resolvers on their read-only paths *)

(** One resolve of a product whose price entries are persisted. *)
Lemma find_or_generate_prices_persisted product_doc w s oid :
  db w = Some s -> p_id product_doc = Some oid ->
  filter (has_product_id (oid_str oid)) (priceentry s) <> [] ->
  fault PriceEntry (opos w) = false ->
  find_or_generate_prices product_doc w =
  (Ok (filter (has_product_id (oid_str oid)) (priceentry s)), tick_op w).
Proof.
  intros Hdb Hid Hne Hf. unfold find_or_generate_prices.
  unfold bind at 1. unfold get_db. rewrite Hdb, Hid.
  rewrite (bind_ok _ _ _ _ _ (find_priceentry_ok _ _ _ Hdb Hf)).
  now rewrite (is_nil_false _ Hne).
Qed.

(** C1: with a store configured and a product that has an identity, if
    the store holds at least one price entry for the product id, the
    price resolver returns exactly that persisted set and leaves the
    store, the random source and the clock untouched (only the operation
    counter moves); a second resolve returns the same set again. *)
Theorem persisted_prices_stable product_doc w s oid :
  db w = Some s -> p_id product_doc = Some oid ->
  filter (has_product_id (oid_str oid)) (priceentry s) <> [] ->
  fault PriceEntry (opos w) = false ->
  fault PriceEntry (S (opos w)) = false ->
  let items := filter (has_product_id (oid_str oid)) (priceentry s) in
  exists w1 w2,
    find_or_generate_prices product_doc w = (Ok items, w1)
    /\ db w1 = Some s /\ rpos w1 = rpos w /\ cpos w1 = cpos w /\ onext w1 = onext w
    /\ find_or_generate_prices product_doc w1 = (Ok items, w2)
    /\ db w2 = Some s /\ rpos w2 = rpos w /\ cpos w2 = cpos w /\ onext w2 = onext w.
Proof.
  intros Hdb Hid Hne Hf1 Hf2 items.
  exists (tick_op w), (tick_op (tick_op w)).
  rewrite (find_or_generate_prices_persisted _ _ _ _ Hdb Hid Hne Hf1).
  assert (Hdb1 : db (tick_op w) = Some s) by exact Hdb.
  rewrite (find_or_generate_prices_persisted _ (tick_op w) _ _ Hdb1 Hid Hne Hf2).
  repeat split; assumption.
Qed.

(** C6: when the store holds a product whose normalized name equals the
    normalized query name, the product resolver returns that stored
    record as it is and changes nothing: no product insert, no price
    seeding, no random draw and no clock read. *)
Theorem existing_product_returned name brand category w s doc :
  db w = Some s ->
  find (has_normalized_name (normalize name)) (product s) = Some doc ->
  fault Product (opos w) = false ->
  exists w',
    ensure_product_in_db name brand category w = (Ok doc, w')
    /\ In doc (product s)
    /\ db w' = Some s /\ rpos w' = rpos w /\ cpos w' = cpos w /\ onext w' = onext w.
Proof.
  intros Hdb Hfind Hf. exists (tick_op w).
  unfold ensure_product_in_db.
  unfold bind at 1. unfold get_db. rewrite Hdb.
  rewrite (bind_ok _ _ _ _ _ (find_one_product_ok _ _ _ Hdb Hf)).
  rewrite Hfind. repeat split; try assumption.
  apply find_some in Hfind. tauto.
Qed.

(** *** The generating paths of the price resolver *)

Lemma assign_ids_eq docs : forall w,
  mapM (fun e => o <- new_object_id ;; ret (set_pe_id o e)) docs w =
  (Ok (assign_ids (onext w) docs), skip_oids (N.of_nat (List.length docs)) w).
Proof.
  induction docs as [|e docs IH]; intro w; cbn [mapM assign_ids List.length].
  - destruct w; unfold ret, skip_oids; simpl. now rewrite N.add_0_r.
  - unfold bind at 1. unfold bind at 1. unfold new_object_id, ret at 1.
    unfold bind at 1. rewrite IH. unfold ret, skip_oids, tick_oid.
    cbn [db rpos cpos opos onext].
    assert (E : (onext w + 1 + N.of_nat (List.length docs) =
                 onext w + N.of_nat (S (List.length docs)))%N) by lia.
    now rewrite E.
Qed.

Lemma insert_many_priceentry_ok docs w s :
  db w = Some s -> fault PriceEntry (opos w) = false ->
  exists w',
    insert_many_priceentry docs w = (Ok (assign_ids (onext w) docs), w')
    /\ db w' = Some (mkStore (product s)
                       (priceentry s ++ assign_ids (onext w) docs)%list
                       (searchrecord s)).
Proof.
  intros Hdb Hf. unfold insert_many_priceentry.
  rewrite (bind_ok _ _ _ _ _ (assign_ids_eq docs w)).
  erewrite with_store_ok; [|exact Hdb|exact Hf].
  eexists. split; reflexivity.
Qed.

Lemma assign_ids_nth_error docs : forall o i,
  nth_error (assign_ids o docs) i =
  option_map (set_pe_id (o + N.of_nat i)%N) (nth_error docs i).
Proof.
  induction docs as [|e docs IH]; intros o [|i]; simpl; try reflexivity.
  - now rewrite N.add_0_r.
  - rewrite IH. do 2 f_equal. lia.
Qed.

Lemma assign_ids_map {B} (g : PriceDoc -> B) docs :
  (forall o e, g (set_pe_id o e) = g e) ->
  forall o, map g (assign_ids o docs) = map g docs.
Proof.
  intro Hg. induction docs; intro o; simpl; [reflexivity|]. now rewrite Hg, IHdocs.
Qed.

Lemma find_or_generate_prices_ephemeral product_doc w :
  db w = None \/ p_id product_doc = None ->
  find_or_generate_prices product_doc w = ephemeral_entries w.
Proof.
  intro H. unfold find_or_generate_prices, bind at 1, get_db.
  destruct (db w), (p_id product_doc); try reflexivity.
  destruct H; discriminate.
Qed.

Lemma find_or_generate_prices_seeds product_doc w s oid :
  db w = Some s -> p_id product_doc = Some oid ->
  filter (has_product_id (oid_str oid)) (priceentry s) = [] ->
  fault PriceEntry (opos w) = false ->
  fault PriceEntry (S (opos w)) = false ->
  let seeded :=
    map_at (seed_entry_at (oid_str oid)
              (match p_normalized_name product_doc with Some n => n | None => "" end)
              (base_at (rpos w))) 18 18 PLATFORMS (rpos w + 1) (cpos w) in
  exists w',
    find_or_generate_prices product_doc w = (Ok (assign_ids (onext w) seeded), w')
    /\ db w' = Some (mkStore (product s)
                       (priceentry s ++ assign_ids (onext w) seeded)%list
                       (searchrecord s)).
Proof.
  intros Hdb Hid Hnone Hf1 Hf2 seeded. unfold find_or_generate_prices.
  unfold bind at 1. unfold get_db. rewrite Hdb, Hid.
  rewrite (bind_ok _ _ _ _ _ (find_priceentry_ok _ _ _ Hdb Hf1)).
  rewrite Hnone. cbn [is_nil].
  rewrite (bind_ok _ _ _ _ _ (seed_entries_eq _ _ _)).
  cbn [rpos cpos tick_op]. fold seeded.
  change (is_nil seeded) with false. cbv iota.
  exact (insert_many_priceentry_ok seeded
           (advance (1 + 7 * 18) (7 * 18) (tick_op w)) s Hdb Hf2).
Qed.

(** The shape shared by the entries of both generating paths. *)
Section GeneratedShape.

Variables (v : string -> nat -> nat -> PriceDoc) (base : Q) (nc : nat).
Hypothesis v_platform : forall p r c, pe_platform (v p r c) = p.
Hypothesis v_currency : forall p r c, pe_currency (v p r c) = "INR".
Hypothesis v_price : forall p r c, pe_price (v p r c) = jitter base (rnd r).

Lemma generated_platforms l r c : map pe_platform (map_at v 18 nc l r c) = l.
Proof.
  rewrite map_map_at.
  revert r c. induction l; intros; simpl; [reflexivity|].
  now rewrite v_platform, IHl.
Qed.

Lemma generated_currency l : forall r c,
  Forall (fun e => pe_currency e = "INR") (map_at v 18 nc l r c).
Proof. induction l; intros; simpl; constructor; auto. Qed.

Lemma generated_price l r c i e :
  nth_error (map_at v 18 nc l r c) i = Some e ->
  pe_price e = jitter base (rnd (r + i * 18)).
Proof.
  rewrite map_at_nth_error. destruct (nth_error l i); simpl; [|discriminate].
  intros [= <-]. apply v_price.
Qed.

End GeneratedShape.

Lemma assign_ids_currency docs : forall o,
  Forall (fun e => pe_currency e = "INR") docs ->
  Forall (fun e => pe_currency e = "INR") (assign_ids o docs).
Proof.
  induction docs; intros o H; simpl; constructor; inversion H; subst; auto.
Qed.

(** C9: on a generating path (the ephemeral one, or the seeding of an
    empty persisted set) the price resolver returns one entry per
    platform of [PLATFORMS], in that order — seven entries — all with
    currency INR, the price of each being [rand_price] of the one base
    price drawn first. *)
Theorem generated_entries product_doc w :
  generates product_doc w ->
  exists es w' base,
    find_or_generate_prices product_doc w = (Ok es, w')
    /\ map pe_platform es = PLATFORMS
    /\ List.length es = 7%nat
    /\ Forall (fun e => pe_currency e = "INR") es
    /\ fst (uniform 499 49999 w) = Ok base
    /\ (forall i e, nth_error es i = Some e ->
                    fst (rand_price base (advance (1 + 18 * i) 0 w)) = Ok (pe_price e)).
Proof.
  intros [Heph | (s & oid & Hdb & Hid & Hnone & Hf1 & Hf2)].
  - rewrite (find_or_generate_prices_ephemeral _ _ Heph), ephemeral_entries_eq.
    do 3 eexists. split; [reflexivity|].
    split; [now apply generated_platforms|].
    split; [now rewrite map_at_length|].
    split; [now apply generated_currency|].
    split; [now rewrite uniform_eq|].
    intros i e He. rewrite rand_price_eq. cbn [fst rpos advance].
    apply generated_price with (base := base_at (rpos w)) in He; [|reflexivity].
    rewrite He. unfold base_at. do 3 f_equal. lia.
  - destruct (find_or_generate_prices_seeds _ _ _ _ Hdb Hid Hnone Hf1 Hf2)
      as (w' & Hrun & _).
    rewrite Hrun. do 3 eexists. split; [reflexivity|].
    split; [rewrite assign_ids_map by reflexivity; now apply generated_platforms|].
    split; [rewrite <- (length_map pe_platform), assign_ids_map by reflexivity;
            now rewrite length_map, map_at_length|].
    split; [now apply assign_ids_currency, generated_currency|].
    split; [now rewrite uniform_eq|].
    intros i e He. rewrite rand_price_eq. cbn [fst rpos advance].
    rewrite assign_ids_nth_error in He.
    destruct (nth_error _ i) as [e0|] eqn:E0; [|discriminate].
    injection He as <-.
    apply generated_price with (base := base_at (rpos w)) in E0; [|reflexivity].
    cbn [set_pe_id pe_price]. rewrite E0. unfold base_at. do 3 f_equal. lia.
Qed.

(** *** Ephemeral generation against seeding *)

Lemma history_points_prices ds : forall cur r c c',
  map pt_price (history_points ds cur r c) =
  map pt_price (history_points ds cur r c').
Proof.
  induction ds; intros; simpl; [reflexivity|]. f_equal. apply IHds.
Qed.

Lemma Forall2_map_at {A B} (R : B -> B -> Prop) (v1 v2 : A -> nat -> nat -> B)
    nr nc1 nc2 l :
  (forall x r c c', R (v1 x r c) (v2 x r c')) ->
  forall r c1 c2, Forall2 R (map_at v1 nr nc1 l r c1) (map_at v2 nr nc2 l r c2).
Proof. intro H. induction l; intros; simpl; constructor; auto. Qed.

Lemma same_synthesis_at pid norm base p r c c' :
  same_synthesis norm (ephemeral_entry_at base p r c) (seed_entry_at pid norm base p r c').
Proof.
  unfold same_synthesis, ephemeral_entry_at, seed_entry_at.
  cbn [pe_platform pe_price pe_currency pe_rating pe_delivery pe_history pe_url
       pe_product_id pe_created_at pe_updated_at].
  do 5 (split; [reflexivity|]).
  split; [apply history_points_prices|].
  do 4 (split; [reflexivity|]). reflexivity.
Qed.

(** C5, as the code has it: without a store, or for a product record
    without identity, the price resolver persists nothing and generates
    its entries from the random source exactly as seeding does —
    platform, price, currency, rating, delivery and history prices are
    those seeding computes from the same draws — but the URL is the bare
    platform host, without the search query seeding appends, and the
    entries carry no product id and no creation or update time. *)
Theorem ephemeral_matches_seeding product_doc w pid norm w0 :
  db w = None \/ p_id product_doc = None ->
  rpos w0 = rpos w ->
  exists es w' ss w0',
    find_or_generate_prices product_doc w = (Ok es, w')
    /\ db w' = db w
    /\ seed_entries pid norm w0 = (Ok ss, w0')
    /\ Forall2 (same_synthesis norm) es ss.
Proof.
  intros Heph Hr.
  rewrite (find_or_generate_prices_ephemeral _ _ Heph), ephemeral_entries_eq.
  rewrite seed_entries_eq, Hr.
  do 4 eexists. split; [reflexivity|]. split; [reflexivity|].
  split; [reflexivity|].
  apply Forall2_map_at. intros. apply same_synthesis_at.
Qed.

(** *** Trending deals *)

Lemma sample_loop_eq k : forall i pool w,
  sample_loop k i pool w = (Ok (sample_at k i pool (rpos w)), advance k 0 w).
Proof.
  induction k as [|k IH]; intros i pool w; cbn [sample_loop sample_at].
  - unfold ret. now rewrite advance_0.
  - unfold randbelow.
    rewrite (bind_ok _ _ _ _ _ (bind_ok _ _ _ _ _ (random_eq w))).
    unfold ret at 1. rewrite (bind_ok _ _ _ _ _ (IH _ _ _)).
    unfold ret. rewrite advance_advance. cbn [rpos advance].
    now rewrite Nat.add_1_r.
Qed.

Lemma sample_at_length k : forall i pool r, List.length (sample_at k i pool r) = k.
Proof. induction k; intros; simpl; [reflexivity | now rewrite IHk]. Qed.

Lemma deal_eq name base p w :
  deal name base p w = (Ok (deal_at name base p (rpos w) (cpos w)), advance 1 1 w).
Proof.
  unfold deal.
  rewrite (bind_ok _ _ _ _ _ (rand_price_eq _ _)).
  rewrite (bind_ok _ _ _ _ _ (now_eq _)).
  rewrite advance_advance. unfold ret, deal_at. cbn [rpos cpos advance].
  now rewrite Nat.add_0_r.
Qed.

Lemma deals_platforms name base l : forall r c,
  map d_platform (map_at (deal_at name base) 1 1 l r c) = l.
Proof. induction l; intros; simpl; [reflexivity | now rewrite IHl]. Qed.

Lemma min_from_spec l : forall best,
  (min_from best l = best \/ In (min_from best l) l)
  /\ d_price (min_from best l) <= d_price best
  /\ Forall (fun d => d_price (min_from best l) <= d_price d) l.
Proof.
  induction l as [|x l IH]; intro best; cbn [min_from].
  - repeat split; [now left | apply Qle_refl | constructor].
  - set (best' := if Qltb (d_price x) (d_price best) then x else best).
    destruct (IH best') as (Hin & Hle & Hall).
    assert (Hb : d_price best' <= d_price best /\ d_price best' <= d_price x
                 /\ (best' = best \/ best' = x)).
    { unfold best'. destruct (Qltb (d_price x) (d_price best)) eqn:E.
      - apply Qltb_lt in E. repeat split; [now apply Qlt_le_weak | apply Qle_refl | now right].
      - apply Qltb_ge in E. repeat split; [apply Qle_refl | assumption | now left]. }
    destruct Hb as (Hb1 & Hb2 & Hb3). repeat split.
    + destruct Hin as [-> | Hin]; [|right; now right].
      destruct Hb3 as [-> | ->]; [now left | right; now left].
    + now apply Qle_trans with (d_price best').
    + constructor; [now apply Qle_trans with (d_price best') | assumption].
Qed.

Lemma lowest_of_spec x l :
  exists low,
    lowest_of (x :: l) = Some low
    /\ In low (x :: l)
    /\ Forall (fun d => d_price low <= d_price d) (x :: l).
Proof.
  destruct (min_from_spec l x) as (Hin & Hle & Hall).
  exists (min_from x l). split; [reflexivity|]. split.
  - destruct Hin as [-> | Hin]; [now left | now right].
  - now constructor.
Qed.

Lemma list_set_length {A} (x : A) l : forall j, List.length (list_set j x l) = List.length l.
Proof. induction l; intros [|j]; simpl; auto. Qed.

Lemma list_set_nth {A} (x d : A) l : forall j t,
  (j < List.length l)%nat ->
  nth t (list_set j x l) d = if (t =? j)%nat then x else nth t l d.
Proof.
  induction l as [|y l IH]; intros [|j] [|t] Hj; simpl in *; try lia; try reflexivity.
  apply IH. lia.
Qed.

Section UnitRandom.

(** [random.random()] returns a value of the interval [0, 1). *)
Hypothesis rnd_unit : forall n, 0 <= rnd n < 1.

Lemma index_of_bound r n : (0 < n)%nat -> (index_of (rnd r) n < n)%nat.
Proof.
  intro Hn. unfold index_of. destruct (rnd_unit r) as [H0 H1].
  set (x := rnd r * inject_Z (Z.of_nat n)).
  assert (Hlo : 0 <= x).
  { unfold x. apply Qmult_le_0_compat; [assumption|].
    change 0 with (inject_Z 0). rewrite <- Zle_Qle. lia. }
  assert (Hhi : x < inject_Z (Z.of_nat n)).
  { unfold x. rewrite <- (Qmult_1_l (inject_Z (Z.of_nat n))) at 2.
    apply Qmult_lt_compat_r; [|assumption].
    change 0 with (inject_Z 0). rewrite <- Zlt_Qlt. lia. }
  assert (Hf0 : (0 <= Qfloor x)%Z).
  { change 0%Z with (Qfloor 0). now apply Qfloor_resp_le. }
  assert (Hf1 : (Qfloor x < Z.of_nat n)%Z).
  { rewrite Zlt_Qlt. apply Qle_lt_trans with x; [apply Qfloor_le | assumption]. }
  lia.
Qed.

(** The pool algorithm selects distinct elements of the live prefix of
    the pool. *)
Lemma sample_at_distinct k : forall i pool r,
  (k + i <= List.length pool)%nat ->
  NoDup (firstn (List.length pool - i) pool) ->
  NoDup (sample_at k i pool r)
  /\ incl (sample_at k i pool r) (firstn (List.length pool - i) pool).
Proof.
  induction k as [|k IH]; intros i pool r Hk Hnd; cbn [sample_at].
  - split; [constructor | intros x []].
  - set (n := List.length pool) in *. set (m := (n - i)%nat) in *.
    assert (Hm : (0 < m)%nat) by (unfold m; lia).
    set (j := index_of (rnd r) m).
    assert (Hj : (j < m)%nat) by (apply index_of_bound; assumption).
    set (lst := nth (m - 1) pool "").
    set (pool' := list_set j lst pool).
    assert (Hlen' : List.length pool' = n) by apply list_set_length.
    assert (Hlive : forall t, (t < m - 1)%nat ->
              nth t (firstn (m - 1) pool') "" =
              if (t =? j)%nat then lst else nth t pool "").
    { intros t Ht. rewrite nth_firstn.
      destruct (Nat.ltb_spec t (m - 1)); [|lia].
      unfold pool'. apply list_set_nth. unfold n, m in *. lia. }
    assert (Hold : forall t, (t < m)%nat ->
              nth t (firstn m pool) "" = nth t pool "").
    { intros t Ht. rewrite nth_firstn.
      now destruct (Nat.ltb_spec t m); [|lia]. }
    assert (Hlenm : List.length (firstn m pool) = m).
    { rewrite length_firstn. unfold m, n. lia. }
    assert (Hlenm' : List.length (firstn (m - 1) pool') = (m - 1)%nat).
    { rewrite length_firstn, Hlen'. unfold m. lia. }
    assert (Hinj : forall a b, (a < m)%nat -> (b < m)%nat ->
              nth a pool "" = nth b pool "" -> a = b).
    { intros a b Ha Hb E. rewrite <- (Hold a Ha), <- (Hold b Hb) in E.
      eapply (proj1 (NoDup_nth _ "") Hnd); rewrite ?Hlenm; eassumption. }
    assert (Hnd' : NoDup (firstn (m - 1) pool')).
    { apply (NoDup_nth _ ""). rewrite Hlenm'. intros a b Ha Hb.
      rewrite (Hlive a Ha), (Hlive b Hb). unfold lst.
      destruct (Nat.eqb_spec a j), (Nat.eqb_spec b j); intro E; subst; try lia;
        apply Hinj in E; lia. }
    assert (Hsub : incl (firstn (m - 1) pool') (firstn m pool)).
    { intros x Hx. apply (In_nth _ _ "") in Hx. destruct Hx as (t & Ht & <-).
      rewrite Hlenm' in Ht. rewrite (Hlive t Ht).
      destruct (Nat.eqb_spec t j).
      - unfold lst. rewrite <- (Hold (m - 1)%nat) by lia.
        apply nth_In. rewrite Hlenm. lia.
      - rewrite <- (Hold t) by lia. apply nth_In. rewrite Hlenm. lia. }
    assert (Hfresh : ~ In (nth j pool "") (firstn (m - 1) pool')).
    { intro Hx. apply (In_nth _ _ "") in Hx. destruct Hx as (t & Ht & E).
      rewrite Hlenm' in Ht. rewrite (Hlive t Ht) in E. unfold lst in E.
      destruct (Nat.eqb_spec t j); apply Hinj in E; lia. }
    replace (n - i - 1)%nat with (m - 1)%nat by reflexivity.
    fold lst. fold pool'.
    destruct (IH (S i) pool' (S r)) as (IHnd & IHin).
    { rewrite Hlen'. lia. }
    { rewrite Hlen'. replace (n - S i)%nat with (m - 1)%nat by (unfold m; lia).
      exact Hnd'. }
    rewrite Hlen' in IHin.
    replace (n - S i)%nat with (m - 1)%nat in IHin by (unfold m; lia).
    split.
    + constructor; [|exact IHnd]. intro Hx. apply Hfresh, IHin, Hx.
    + intros x [<- | Hx].
      * rewrite <- (Hold j Hj). apply nth_In. now rewrite Hlenm.
      * apply Hsub, IHin, Hx.
Qed.

Lemma PLATFORMS_NoDup : NoDup PLATFORMS.
Proof.
  unfold PLATFORMS.
  repeat (constructor; [simpl; intuition discriminate|]). constructor.
Qed.

Lemma trending_item_spec z w :
  exists it w',
    trending_item z w = (Ok it, w')
    /\ lowest_is_min it /\ platforms_sampled it.
Proof.
  unfold trending_item.
  rewrite (bind_ok _ _ _ _ _ (choice_eq _ _)).
  rewrite (bind_ok _ _ _ _ _ (choice_eq _ _)).
  rewrite (bind_ok _ _ _ _ _ (choice_eq _ _)).
  rewrite (bind_ok _ _ _ _ _ (uniform_eq _ _ _)).
  unfold sample. rewrite (bind_ok _ _ _ _ _ (sample_loop_eq _ _ _ _)).
  rewrite (bind_ok _ _ _ _ _ (mapM_at _ _ _ _ _ (deal_eq _ _) _)).
  rewrite (bind_ok _ _ _ _ _ (choice_eq _ _)).
  unfold ret. do 2 eexists. split; [reflexivity|].
  unfold lowest_is_min, platforms_sampled. cbn [ti_lowest ti_platforms].
  match goal with
  | |- context [map_at ?v 1 1 ?ch ?r ?c] =>
      set (chosen := ch); set (deals := map_at v 1 1 chosen r c)
  end.
  assert (Hlen : List.length deals = 4%nat).
  { unfold deals. rewrite map_at_length. apply sample_at_length. }
  assert (Hplat : map d_platform deals = chosen) by apply deals_platforms.
  destruct (sample_at_distinct (Nat.min 4 (List.length PLATFORMS)) 0 PLATFORMS
              (rpos (advance 1 0 (advance 1 0 (advance 1 0 (advance 1 0 w))))))
    as (Hnd & Hin).
  { simpl. lia. }
  { simpl. apply PLATFORMS_NoDup. }
  split.
  - destruct deals as [|x l]; [discriminate|]. apply lowest_of_spec.
  - rewrite Hplat. repeat split; assumption.
Qed.

Lemma trending_items_spec l : forall w,
  exists its w',
    mapM trending_item l w = (Ok its, w')
    /\ List.length its = List.length l
    /\ Forall (fun it => lowest_is_min it /\ platforms_sampled it) its.
Proof.
  induction l as [|z l IH]; intro w; cbn [mapM].
  - exists [], w. repeat split; constructor.
  - destruct (trending_item_spec z w) as (it & w1 & Hit & Hok).
    destruct (IH w1) as (its & w2 & Hits & Hlen & Hall).
    rewrite (bind_ok _ _ _ _ _ Hit), (bind_ok _ _ _ _ _ Hits).
    exists (it :: its), w2. repeat split; simpl; auto.
Qed.

(** C8, as the code has it: the trending endpoint returns exactly
    [limit] items when [limit] is not negative (and none when it is);
    each item has a [lowest] entry, one of its platform entries, whose
    price is at most every platform price of the item, and its
    platform entries — one price each, no history — are for four
    distinct platforms of the fixed list. *)
Theorem trending_deals_items limit w :
  exists resp w',
    trending_deals limit w = (Ok resp, w')
    /\ List.length (items resp) = Z.to_nat limit
    /\ ((0 <= limit)%Z -> Z.of_nat (List.length (items resp)) = limit)
    /\ Forall (fun it => lowest_is_min it /\ platforms_sampled it) (items resp).
Proof.
  unfold trending_deals.
  destruct (trending_items_spec (range limit) w) as (its & w1 & Hits & Hlen & Hall).
  rewrite (bind_ok _ _ _ _ _ Hits), (bind_ok _ _ _ _ _ (now_eq _)).
  do 2 eexists. split; [reflexivity|]. cbn [items].
  assert (Hn : List.length its = Z.to_nat limit).
  { rewrite Hlen. unfold range. now rewrite length_map, length_seq. }
  repeat split; [exact Hn | intro; rewrite Hn; lia | exact Hall].
Qed.

End UnitRandom.

(** *** The search log is framed by resolution *)

Lemma keeps_ret {A} (a : A) : keeps_log (ret a).
Proof. now intro w. Qed.

Lemma keeps_raise {A} e : keeps_log (@raise A e).
Proof. now intro w. Qed.

Lemma keeps_bind {A B} (m : M A) (k : A -> M B) :
  keeps_log m -> (forall a, keeps_log (k a)) -> keeps_log (bind m k).
Proof.
  intros Hm Hk w. unfold bind. specialize (Hm w).
  destruct (m w) as [[a|e] w']; simpl in *; [now rewrite Hk | assumption].
Qed.

Lemma keeps_mapM {A B} (f : A -> M B) l :
  (forall x, keeps_log (f x)) -> keeps_log (mapM f l).
Proof.
  intro Hf. induction l; simpl; [apply keeps_ret|].
  apply keeps_bind; [apply Hf|]. intro. apply keeps_bind; [assumption|].
  intro. apply keeps_ret.
Qed.

Lemma keeps_get_db : keeps_log get_db.
Proof. now intro w. Qed.

Lemma keeps_random : keeps_log random.
Proof. now intro w. Qed.

Lemma keeps_now : keeps_log now.
Proof. now intro w. Qed.

Lemma keeps_new_object_id : keeps_log new_object_id.
Proof. now intro w. Qed.

Lemma keeps_with_store {A} c (op : Store -> A * Store) :
  (forall s, searchrecord (snd (op s)) = searchrecord s) ->
  keeps_log (with_store c op).
Proof.
  intros Hop w. unfold with_store, log_of.
  destruct (db w) as [s|] eqn:E; simpl; [|now rewrite E].
  destruct (fault c (opos w)); simpl; [now rewrite E|].
  specialize (Hop s). destruct (op s); simpl in *. now rewrite Hop.
Qed.

Lemma keeps_make_history base days : keeps_log (make_history base days).
Proof. intro w. now rewrite make_history_eq. Qed.

Create HintDb frame.
#[local] Hint Resolve keeps_ret keeps_raise keeps_get_db keeps_random keeps_now
  keeps_new_object_id keeps_make_history : frame.

(** Splits a computation along its binds and case distinctions. *)
Ltac frame :=
  repeat first
    [ solve [auto with frame]
    | apply keeps_bind; [|intro]
    | apply keeps_mapM; intro
    | apply keeps_with_store; intro; reflexivity
    | match goal with
      | |- keeps_log (match ?x with _ => _ end) => destruct x
      end ].

Lemma keeps_uniform a b : keeps_log (uniform a b).
Proof. unfold uniform. frame. Qed.

Lemma keeps_choice l : keeps_log (choice l).
Proof. unfold choice, randbelow. frame. Qed.

Lemma keeps_rand_price base : keeps_log (rand_price base).
Proof. unfold rand_price. frame. Qed.

#[local] Hint Resolve keeps_uniform keeps_choice keeps_rand_price : frame.

Lemma keeps_seed_entries pid norm : keeps_log (seed_entries pid norm).
Proof. unfold seed_entries, seed_entry. frame. Qed.

Lemma keeps_ephemeral_entries : keeps_log ephemeral_entries.
Proof. unfold ephemeral_entries, ephemeral_entry. frame. Qed.

Lemma keeps_insert_many_priceentry docs : keeps_log (insert_many_priceentry docs).
Proof. unfold insert_many_priceentry. frame. Qed.

#[local] Hint Resolve keeps_seed_entries keeps_ephemeral_entries
  keeps_insert_many_priceentry : frame.

Lemma keeps_ensure_product_in_db name brand category :
  keeps_log (ensure_product_in_db name brand category).
Proof.
  unfold ensure_product_in_db, find_one_product, insert_one_product. frame.
Qed.

Lemma keeps_find_or_generate_prices product_doc :
  keeps_log (find_or_generate_prices product_doc).
Proof. unfold find_or_generate_prices, find_priceentry. frame. Qed.

Lemma log_of_configured w w' s :
  db w = Some s -> log_of w' = log_of w ->
  exists s', db w' = Some s' /\ searchrecord s' = searchrecord s.
Proof.
  unfold log_of. intros ->. destruct (db w') as [s'|]; simpl; [|discriminate].
  intros [= H]. now exists s'.
Qed.

(** *** Filtering and assembly *)

Lemma below_spec v b : below v b = false <-> at_least b v.
Proof.
  destruct b as [x| | |]; cbn [below at_least].
  - apply Qltb_ge.
  - split; [discriminate | contradiction].
  - now split.
  - now split.
Qed.

Lemma above_spec v b : above v b = false <-> at_most b v.
Proof.
  destruct b as [x| | |]; cbn [above at_most].
  - apply Qltb_ge.
  - now split.
  - split; [discriminate | contradiction].
  - now split.
Qed.

Lemma in_range_spec lo hi v : in_range lo hi v = true <-> within_bounds lo hi v.
Proof.
  unfold in_range, within_bounds. split.
  - intro H. split; intros b ->.
    + destruct (below v b) eqn:E; [discriminate|]. now apply below_spec.
    + destruct lo as [l|]; [destruct (below v l); [discriminate|]|];
        (destruct (above v b) eqn:E; [discriminate|]; now apply above_spec).
  - intros [Hlo Hhi].
    assert (L : match lo with Some l => below v l | None => false end = false).
    { destruct lo as [l|]; [|reflexivity]. apply below_spec, Hlo; reflexivity. }
    assert (H : match hi with Some h => above v h | None => false end = false).
    { destruct hi as [h|]; [|reflexivity]. apply above_spec, Hhi; reflexivity. }
    now rewrite L, H.
Qed.

Lemma filter_all {A} (f : A -> bool) l : (forall x, f x = true) -> filter f l = l.
Proof. intro H. induction l; simpl; [reflexivity|]. now rewrite H, IHl. Qed.

(** The guard of line 233 only skips a filter that would keep everything. *)
Lemma apply_price_filter_eq lo hi prices :
  apply_price_filter lo hi prices =
  filter (fun p => in_range lo hi (pe_price p)) prices.
Proof.
  unfold apply_price_filter. destruct lo, hi; simpl; try reflexivity.
  symmetry. now apply filter_all.
Qed.

Lemma to_platform_price_eq p w :
  to_platform_price p w =
  if rating_ok (pe_rating p) then (Ok (platform_price_of p), w)
  else (Raised ValidationError, w).
Proof. unfold to_platform_price. now destruct (rating_ok (pe_rating p)). Qed.

Lemma mapM_to_platform_price l w :
  mapM to_platform_price l w =
  if forallb (fun p => rating_ok (pe_rating p)) l
  then (Ok (map platform_price_of l), w)
  else (Raised ValidationError, w).
Proof.
  induction l as [|p l IH]; cbn [mapM forallb map]; [reflexivity|].
  unfold bind at 1. rewrite to_platform_price_eq.
  destruct (rating_ok (pe_rating p)); cbn [andb]; [|reflexivity].
  unfold bind at 1. rewrite IH.
  now destruct (forallb (fun p => rating_ok (pe_rating p)) l).
Qed.

(** *** Recording the search *)

Lemma record_search_no_store q b c lo hi n w :
  db w = None -> record_search q b c lo hi n w = (Ok tt, w).
Proof.
  intro H. unfold record_search, try_except, bind, get_db. now rewrite H.
Qed.

Lemma record_search_configured q b c lo hi n w s :
  db w = Some s ->
  record_search q b c lo hi n w =
  (Ok tt,
   if fault SearchRecord (opos w)
   then tick_op (tick_oid (tick_clock w))
   else set_db
          (Some (log_search
                   (mkSearchDoc (Some (onext w)) q b c lo hi n (clock (cpos w))) s))
          (tick_op (tick_oid (tick_clock w)))).
Proof.
  intro H.
  unfold record_search, create_document_searchrecord, try_except, bind, get_db,
    now, new_object_id, with_store.
  rewrite H. simpl. rewrite H.
  now destruct (fault SearchRecord (opos w)).
Qed.

Lemma record_search_returns q b c lo hi n w :
  record_search q b c lo hi n w = (Ok tt, snd (record_search q b c lo hi n w)).
Proof.
  destruct (db w) as [s|] eqn:E.
  - now rewrite (record_search_configured _ _ _ _ _ _ _ _ E).
  - now rewrite (record_search_no_store _ _ _ _ _ _ _ E).
Qed.

(** *** One run of the search endpoint *)

Section SearchRun.

Variables (q : string) (category brand : option string) (price_min price_max : option Float).

Lemma search_products_ok w doc w1 prices w2 :
  ensure_product_in_db q brand category w = (Ok doc, w1) ->
  find_or_generate_prices doc w1 = (Ok prices, w2) ->
  valid (kept price_min price_max prices) = true ->
  search_products q category brand price_min price_max w =
  (Ok (response_of q category brand price_min price_max doc prices w2),
   snd (record_search q brand category price_min price_max
          (List.length (kept price_min price_max prices)) (recording_world w2))).
Proof.
  intros He Hf Hv. unfold search_products.
  rewrite (bind_ok _ _ _ _ _ He), (bind_ok _ _ _ _ _ Hf).
  unfold bind at 1. unfold new_object_id.
  rewrite apply_price_filter_eq. fold (kept price_min price_max prices).
  unfold bind at 1. rewrite mapM_to_platform_price. fold (valid (kept price_min price_max prices)).
  rewrite Hv. unfold bind at 1. unfold now.
  unfold bind. cbn [r_platforms]. rewrite length_map.
  fold (recording_world w2). rewrite record_search_returns.
  reflexivity.
Qed.

Lemma search_products_invalid w doc w1 prices w2 :
  ensure_product_in_db q brand category w = (Ok doc, w1) ->
  find_or_generate_prices doc w1 = (Ok prices, w2) ->
  valid (kept price_min price_max prices) = false ->
  search_products q category brand price_min price_max w =
  (Raised ValidationError, tick_oid w2).
Proof.
  intros He Hf Hv. unfold search_products.
  rewrite (bind_ok _ _ _ _ _ He), (bind_ok _ _ _ _ _ Hf).
  unfold bind at 1. unfold new_object_id.
  rewrite apply_price_filter_eq. fold (kept price_min price_max prices).
  unfold bind at 1. rewrite mapM_to_platform_price. fold (valid (kept price_min price_max prices)).
  now rewrite Hv.
Qed.

(** What a run of the endpoint did, read off its outcome. *)
Lemma search_products_inv w r w' :
  search_products q category brand price_min price_max w = (r, w') ->
  match r with
  | Ok resp =>
      exists doc w1 prices w2,
        ensure_product_in_db q brand category w = (Ok doc, w1)
        /\ find_or_generate_prices doc w1 = (Ok prices, w2)
        /\ valid (kept price_min price_max prices) = true
        /\ resp = response_of q category brand price_min price_max doc prices w2
        /\ w' = snd (record_search q brand category price_min price_max
                       (List.length (kept price_min price_max prices)) (recording_world w2))
  | Raised _ => log_of w' = log_of w
  end.
Proof.
  pose proof (keeps_ensure_product_in_db q brand category w) as K1.
  destruct (ensure_product_in_db q brand category w) as [[doc|e] w1] eqn:He.
  - pose proof (keeps_find_or_generate_prices doc w1) as K2.
    destruct (find_or_generate_prices doc w1) as [[prices|e] w2] eqn:Hf.
    + destruct (valid (kept price_min price_max prices)) eqn:Hv.
      * rewrite (search_products_ok _ _ _ _ _ He Hf Hv). intros [= <- <-].
        exists doc, w1, prices, w2. auto.
      * rewrite (search_products_invalid _ _ _ _ _ He Hf Hv). intros [= <- <-].
        simpl in *. unfold log_of in *. simpl. congruence.
    + unfold search_products.
      rewrite (bind_ok _ _ _ _ _ He), (bind_raised _ _ _ _ _ Hf).
      intros [= <- <-]. simpl in *. congruence.
  - unfold search_products. rewrite (bind_raised _ _ _ _ _ He).
    intros [= <- <-]. exact K1.
Qed.

Lemma kept_spec prices p :
  In p (kept price_min price_max prices) <->
  In p prices /\ within_bounds price_min price_max (pe_price p).
Proof. unfold kept. now rewrite filter_In, in_range_spec. Qed.

(** The store is still configured, with the same log, when the search
    record is about to be written. *)
Lemma resolution_keeps_log w s doc w1 prices w2 :
  db w = Some s ->
  ensure_product_in_db q brand category w = (Ok doc, w1) ->
  find_or_generate_prices doc w1 = (Ok prices, w2) ->
  exists s2, db (recording_world w2) = Some s2 /\ searchrecord s2 = searchrecord s.
Proof.
  intros Hdb He Hf.
  pose proof (keeps_ensure_product_in_db q brand category w) as K1.
  pose proof (keeps_find_or_generate_prices doc w1) as K2.
  rewrite He in K1. rewrite Hf in K2. simpl in K1, K2.
  apply (log_of_configured w); [assumption|].
  unfold log_of in *. simpl. congruence.
Qed.

(** For bounds that are not NaN, [within_bounds] is [lo <= v <= hi]. *)
Lemma within_bounds_lies_within lo hi v :
  lo <> Some NaN -> hi <> Some NaN ->
  (within_bounds lo hi v <-> lies_within lo hi v).
Proof.
  intros Hlo Hhi. unfold within_bounds, lies_within.
  split; intros [H1 H2]; split; intros b Hb.
  - specialize (H1 b Hb). destruct b; try exact H1. now subst.
  - specialize (H2 b Hb). destruct b; try exact H2. now subst.
  - specialize (H1 b Hb). destruct b; try exact H1. now subst.
  - specialize (H2 b Hb). destruct b; try exact H2. now subst.
Qed.

Lemma filter_kept (keep : PriceDoc -> bool) prices :
  (forall e, keep e = true <-> within_bounds price_min price_max (pe_price e)) ->
  filter keep prices = kept price_min price_max prices.
Proof.
  intro H. unfold kept. apply filter_ext. intro e.
  pose proof (H e) as He. pose proof (in_range_spec price_min price_max (pe_price e)) as Hr.
  destruct (keep e), (in_range price_min price_max (pe_price e)); try reflexivity.
  - symmetry. apply Hr, He. reflexivity.
  - apply He, Hr. reflexivity.
Qed.

Lemma Forall2_map_right {A B} (R : A -> B -> Prop) (f : A -> B) l :
  (forall x, R x (f x)) -> Forall2 R l (map f l).
Proof. intro H. induction l; cbn [map]; constructor; auto. Qed.

(** C3, as the code has it: the single result carries the product's id,
    name, brand, category and image, and its platform list shows, field
    by field and in their order, exactly the resolved entries whose price
    is not below [price_min] and not above [price_max]; an absent bound
    imposes no constraint, and neither does a NaN bound.  For bounds that
    are not NaN these are the entries whose price lies within the
    inclusive bounds.  When no entry qualifies the platform list is
    empty. *)
Theorem search_filters_platforms w doc w1 prices w2 :
  ensure_product_in_db q brand category w = (Ok doc, w1) ->
  find_or_generate_prices doc w1 = (Ok prices, w2) ->
  valid (kept price_min price_max prices) = true ->
  exists resp w' r,
    search_products q category brand price_min price_max w = (Ok resp, w')
    /\ results resp = [r]
    /\ (forall keep : PriceDoc -> bool,
          (forall e, keep e = true <->
                     within_bounds price_min price_max (pe_price e)) ->
          Forall2 (fun e p =>
                     platform p = pe_platform e
                     /\ price p = pe_price e
                     /\ currency p = pe_currency e
                     /\ url p = Some (pe_url e)
                     /\ rating p = Some (pe_rating e)
                     /\ delivery p = Some (pe_delivery e)
                     /\ last_updated p = pe_last_updated e
                     /\ history p = pe_history e)
                  (filter keep prices) (r_platforms r))
    /\ (price_min <> Some NaN -> price_max <> Some NaN ->
        forall v, within_bounds price_min price_max v <->
                  lies_within price_min price_max v)
    /\ r_id r = oid_str (match p_id doc with Some o => o | None => onext w2 end)
    /\ r_name r = match p_name doc with Some n => n | None => q end
    /\ r_brand r = p_brand doc
    /\ r_category r = p_category doc
    /\ r_image r = p_image doc
    /\ ((forall e, In e prices ->
                   ~ within_bounds price_min price_max (pe_price e)) ->
        r_platforms r = []).
Proof.
  intros He Hf Hv. rewrite (search_products_ok _ _ _ _ _ He Hf Hv).
  eexists; eexists; eexists. split; [reflexivity|]. split; [reflexivity|].
  cbn [result_of r_platforms r_id r_name r_brand r_category r_image].
  split.
  { intros keep Hkeep. rewrite (filter_kept keep prices Hkeep).
    apply Forall2_map_right. intro e. cbn. repeat split. }
  split; [intros Hlo Hhi v; now apply within_bounds_lies_within|].
  do 5 (split; [reflexivity|]).
  intro Hnone. destruct (kept price_min price_max prices) as [|p l] eqn:E; [reflexivity|].
  assert (Hp : In p (kept price_min price_max prices)) by (rewrite E; now left).
  apply kept_spec in Hp. destruct Hp as [Hin Hb]. now destruct (Hnone p Hin).
Qed.

(** C4, as the code has it: with a store configured, a call that
    returns a response has made exactly one attempt to write a search
    record — one record for the query is appended unless that write
    faults — whereas a call that fails (in resolution or in validation)
    leaves the search log as it was. *)
Theorem search_record_written w s r w' :
  db w = Some s ->
  search_products q category brand price_min price_max w = (r, w') ->
  exists s',
    db w' = Some s'
    /\ match r with
       | Ok resp =>
           if fault SearchRecord (pred (opos w'))
           then searchrecord s' = searchrecord s
           else exists rec,
               searchrecord s' = (searchrecord s ++ [rec])%list
               /\ sr_query rec = q
       | Raised _ => searchrecord s' = searchrecord s
       end.
Proof.
  intros Hdb Hrun. pose proof (search_products_inv _ _ _ Hrun) as Hinv.
  destruct r as [resp|e].
  - destruct Hinv as (doc & w1 & prices & w2 & He & Hf & Hv & -> & ->).
    destruct (resolution_keeps_log _ _ _ _ _ _ Hdb He Hf) as (s2 & Hdb2 & Hlog).
    rewrite (record_search_configured _ _ _ _ _ _ _ _ Hdb2).
    cbn [snd].
    destruct (fault SearchRecord (opos (recording_world w2))) eqn:F.
    + exists s2. split; [exact Hdb2|].
      match goal with
      | |- context [fault SearchRecord ?k] =>
          change k with (opos (recording_world w2))
      end. now rewrite F.
    + eexists. split; [reflexivity|].
      match goal with
      | |- context [fault SearchRecord ?k] =>
          change k with (opos (recording_world w2))
      end. rewrite F.
      eexists. cbn [log_search searchrecord]. rewrite Hlog.
      split; reflexivity.
  - apply (log_of_configured w); assumption.
Qed.

(** C10: the [results_count] of the persisted search record is the
    number of platform entries of the response, that is, of the
    resolved entries that remain after price-range filtering. *)
Theorem results_count_after_filter w s doc w1 prices w2 :
  db w = Some s ->
  ensure_product_in_db q brand category w = (Ok doc, w1) ->
  find_or_generate_prices doc w1 = (Ok prices, w2) ->
  valid (kept price_min price_max prices) = true ->
  fault SearchRecord (opos w2) = false ->
  exists resp w' s' rec r,
    search_products q category brand price_min price_max w = (Ok resp, w')
    /\ db w' = Some s'
    /\ searchrecord s' = (searchrecord s ++ [rec])%list
    /\ results resp = [r]
    /\ sr_results_count rec = List.length (r_platforms r)
    /\ sr_results_count rec = List.length (kept price_min price_max prices)
    /\ (forall p, In p (kept price_min price_max prices) <->
                  In p prices /\ within_bounds price_min price_max (pe_price p)).
Proof.
  intros Hdb He Hf Hv Hfault.
  rewrite (search_products_ok _ _ _ _ _ He Hf Hv).
  destruct (resolution_keeps_log _ _ _ _ _ _ Hdb He Hf) as (s2 & Hdb2 & Hlog).
  rewrite (record_search_configured _ _ _ _ _ _ _ _ Hdb2).
  change (opos (recording_world w2)) with (opos w2). rewrite Hfault.
  do 5 eexists. split; [reflexivity|]. split; [reflexivity|].
  cbn [log_search searchrecord]. rewrite Hlog.
  split; [reflexivity|]. split; [reflexivity|].
  cbn [sr_results_count result_of r_platforms]. rewrite length_map.
  split; [reflexivity|]. split; [reflexivity|]. intro; apply kept_spec.
Qed.

End SearchRun.

(* ------------------------------------------------------------------ *)
(** ** Further properties *)

(** *** Rounding and the range of the synthesized values *)

Lemma round_half_even_near x :
  x - (1 # 2) <= inject_Z (round_half_even x) <= x + (1 # 2).
Proof.
  unfold round_half_even.
  pose proof (Qfloor_le x) as Hlo. pose proof (Qlt_floor x) as Hhi.
  rewrite inject_Z_plus in Hhi. change (inject_Z 1) with 1 in Hhi.
  destruct (Qltb (x - inject_Z (Qfloor x)) (1 # 2)) eqn:E1.
  - apply Qltb_lt in E1. lra.
  - apply Qltb_ge in E1.
    destruct (Qltb (1 # 2) (x - inject_Z (Qfloor x))) eqn:E2.
    + rewrite inject_Z_plus. change (inject_Z 1) with 1. lra.
    + apply Qltb_ge in E2. destruct (Z.even (Qfloor x)).
      * lra.
      * rewrite inject_Z_plus. change (inject_Z 1) with 1. lra.
Qed.

(** Rounding never crosses an integer. *)
Lemma round_half_even_ge n y : inject_Z n <= y -> (n <= round_half_even y)%Z.
Proof.
  intro H. assert (Hf : (n <= Qfloor y)%Z).
  { rewrite <- (Qfloor_Z n). now apply Qfloor_resp_le. }
  unfold round_half_even.
  destruct (Qltb _ _); [assumption|]. destruct (Qltb _ _); [lia|].
  destruct (Z.even _); lia.
Qed.

Lemma round_half_even_le n y : y <= inject_Z n -> (round_half_even y <= n)%Z.
Proof.
  intro H. assert (Hf : (Qfloor y <= n)%Z).
  { rewrite <- (Qfloor_Z n). now apply Qfloor_resp_le. }
  unfold round_half_even.
  destruct (Z.eq_dec (Qfloor y) n) as [E|E].
  - assert (Hr : y - inject_Z (Qfloor y) < 1 # 2).
    { pose proof (Qfloor_le y). rewrite E in *. lra. }
    apply Qltb_lt in Hr. now rewrite Hr, E.
  - destruct (Qltb _ _); [assumption|]. destruct (Qltb _ _); [lia|].
    destruct (Z.even _); lia.
Qed.

Lemma round2_near x : x - (1 # 200) <= round x 2 <= x + (1 # 200).
Proof.
  unfold round. change (Pos.pow 10 (Pos.of_nat 2)) with 100%positive.
  pose proof (round_half_even_near (x * inject_Z 100)) as H.
  rewrite (Qmake_Qdiv (round_half_even (x * inject_Z 100)) 100).
  change (inject_Z (Z.pos 100)) with 100 in *.
  set (z := inject_Z (round_half_even (x * 100))) in *.
  unfold Qdiv. change (/ 100) with (1 # 100). lra.
Qed.

Lemma round1_between lo hi x :
  inject_Z lo <= x * 10 -> x * 10 <= inject_Z hi ->
  inject_Z lo / 10 <= round x 1 <= inject_Z hi / 10.
Proof.
  intros Hlo Hhi. unfold round. change (Pos.pow 10 (Pos.of_nat 1)) with 10%positive.
  change (inject_Z (Z.pos 10)) with 10.
  pose proof (round_half_even_ge lo _ Hlo) as H1.
  pose proof (round_half_even_le hi _ Hhi) as H2.
  rewrite (Qmake_Qdiv (round_half_even (x * 10)) 10).
  change (inject_Z (Z.pos 10)) with 10.
  rewrite Zle_Qle in H1, H2. unfold Qdiv. change (/ 10) with (1 # 10). lra.
Qed.

Lemma jitter_bounds base u :
  0 <= base -> 0 <= u < 1 ->
  base * 0.85 - 0.005 <= jitter base u <= base * 1.15 + 0.005.
Proof.
  intros Hb [Hu0 Hu1]. unfold jitter.
  set (x := base - base * 0.15 + (base + base * 0.15 - (base - base * 0.15)) * u).
  pose proof (round2_near x) as H.
  assert (Hx : base * 0.85 <= x <= base * 1.15).
  { unfold x. split; nra. }
  lra.
Qed.

Lemma rating_ok_range r : 3.5 <= r <= 5 -> rating_ok r = true.
Proof.
  intros [H1 H2]. unfold rating_ok.
  apply andb_true_iff. split; apply Qle_bool_iff; lra.
Qed.

Lemma assign_ids_Forall (P : PriceDoc -> Prop) docs :
  (forall o e, P e -> P (set_pe_id o e)) ->
  forall o, Forall P docs -> Forall P (assign_ids o docs).
Proof.
  intro HP. induction docs; intros o H; simpl; constructor; inversion H; subst; auto.
Qed.

Lemma map_at_Forall {A B} (P : B -> Prop) (v : A -> nat -> nat -> B) nr nc l :
  (forall x r c, P (v x r c)) -> forall r c, Forall P (map_at v nr nc l r c).
Proof. intro H. induction l; intros; simpl; constructor; auto. Qed.

(** *** The product resolver when it creates a product *)

Lemma ensure_product_in_db_no_store name brand category w :
  db w = None ->
  ensure_product_in_db name brand category w =
  (Ok (transient_doc name brand category (rpos w) (cpos w)), advance 1 2 w).
Proof.
  intro Hdb. unfold ensure_product_in_db.
  unfold bind at 1. unfold get_db at 1. rewrite Hdb.
  unfold bind at 1. unfold ret at 1.
  rewrite (bind_ok _ _ _ _ _ (choice_eq _ _)).
  rewrite (bind_ok _ _ _ _ _ (now_eq _)).
  rewrite (bind_ok _ _ _ _ _ (now_eq _)).
  unfold bind at 1. unfold get_db. cbn [db advance]. rewrite Hdb.
  rewrite !advance_advance. unfold ret, transient_doc.
  cbn [rpos cpos advance]. now rewrite Nat.add_0_r.
Qed.

Lemma ensure_product_in_db_found name brand category w s doc :
  db w = Some s ->
  find (has_normalized_name (normalize name)) (product s) = Some doc ->
  fault Product (opos w) = false ->
  ensure_product_in_db name brand category w = (Ok doc, tick_op w).
Proof.
  intros Hdb Hfind Hf. unfold ensure_product_in_db.
  unfold bind at 1. unfold get_db. rewrite Hdb.
  rewrite (bind_ok _ _ _ _ _ (find_one_product_ok _ _ _ Hdb Hf)).
  now rewrite Hfind.
Qed.

Lemma insert_one_product_ok doc w s :
  db w = Some s -> fault Product (opos w) = false ->
  insert_one_product doc w =
  (Ok (onext w),
   set_db (Some (mkStore (product s ++ [set_p_id (onext w) doc])%list
                   (priceentry s) (searchrecord s)))
     (tick_op (tick_oid w))).
Proof.
  intros Hdb Hf. unfold insert_one_product.
  unfold bind at 1. unfold new_object_id.
  now rewrite (with_store_ok _ _ (tick_oid w) s Hdb Hf).
Qed.

Lemma find_app_last {A} (f : A -> bool) l d :
  find f l = None -> f d = true -> find f (l ++ [d]) = Some d.
Proof.
  induction l as [|x l IH]; simpl; intros Hn Hd; [now rewrite Hd|].
  destruct (f x); [discriminate | now apply IH].
Qed.

Lemma has_normalized_name_transient name brand category o r c :
  has_normalized_name (normalize name)
    (set_p_id o (transient_doc name brand category r c)) = true.
Proof. unfold has_normalized_name. simpl. apply String.eqb_refl. Qed.

Lemma seeded_for_platforms name o w : map pe_platform (seeded_for name o w) = PLATFORMS.
Proof.
  unfold seeded_for. rewrite assign_ids_map by reflexivity.
  now apply generated_platforms.
Qed.

Lemma seeded_for_linked name o w :
  Forall (fun e => pe_product_id e = Some (oid_str o)) (seeded_for name o w).
Proof.
  unfold seeded_for. apply assign_ids_Forall; [now intros o' e He|].
  now apply map_at_Forall.
Qed.

Lemma filter_linked pid l :
  Forall (fun e => pe_product_id e = Some pid) l ->
  filter (has_product_id pid) l = l.
Proof.
  induction 1 as [|e l He Hl IH]; simpl; [reflexivity|].
  unfold has_product_id at 1. now rewrite He, String.eqb_refl, IH.
Qed.

Lemma valid_kept lo hi es :
  Forall (fun e => rating_ok (pe_rating e) = true) es -> valid (kept lo hi es) = true.
Proof.
  unfold valid, kept. induction 1 as [|e es He Hes IH]; simpl; [reflexivity|].
  destruct (in_range lo hi (pe_price e)); simpl; [now rewrite He|assumption].
Qed.

Lemma record_search_store q b c lo hi n w s :
  db w = Some s ->
  exists s',
    db (snd (record_search q b c lo hi n w)) = Some s'
    /\ product s' = product s /\ priceentry s' = priceentry s.
Proof.
  intro Hdb. rewrite (record_search_configured _ _ _ _ _ _ _ _ Hdb). cbn [snd].
  destruct (fault SearchRecord (opos w)).
  - exists s. repeat split. exact Hdb.
  - eexists. repeat split.
Qed.

(** *** What an operation may do to the store *)

Section Frame.

Variable R : Store -> Store -> Prop.
Hypothesis R_refl : forall s, R s s.
Hypothesis R_trans : forall a b c, R a b -> R b c -> R a c.

Lemma lift_same w w' : db w' = db w -> lift R w w'.
Proof. unfold lift. intros ->. destruct (db w); auto. Qed.

Lemma lift_trans w1 w2 w3 : lift R w1 w2 -> lift R w2 w3 -> lift R w1 w3.
Proof.
  unfold lift. destruct (db w1), (db w2), (db w3); try tauto. apply R_trans.
Qed.

Lemma respects_ret {A} (a : A) : respects R (ret a).
Proof. intro w. now apply lift_same. Qed.

Lemma respects_raise {A} e : respects R (@raise A e).
Proof. intro w. now apply lift_same. Qed.

Lemma respects_bind {A B} (m : M A) (k : A -> M B) :
  respects R m -> (forall a, respects R (k a)) -> respects R (bind m k).
Proof.
  intros Hm Hk w. unfold bind. specialize (Hm w).
  destruct (m w) as [[a|e] w']; cbn [snd] in *; [|assumption].
  eapply lift_trans; [exact Hm | apply Hk].
Qed.

Lemma respects_try_except {A} (m : M A) (h : Exn -> M A) :
  respects R m -> (forall e, respects R (h e)) -> respects R (try_except m h).
Proof.
  intros Hm Hh w. unfold try_except. specialize (Hm w).
  destruct (m w) as [[a|e] w']; cbn [snd] in *; [assumption|].
  eapply lift_trans; [exact Hm | apply Hh].
Qed.

Lemma respects_mapM {A B} (f : A -> M B) l :
  (forall x, respects R (f x)) -> respects R (mapM f l).
Proof.
  intro Hf. induction l; cbn [mapM]; [apply respects_ret|].
  apply respects_bind; [apply Hf|]. intro. apply respects_bind; [assumption|].
  intro. apply respects_ret.
Qed.

Lemma respects_get_db : respects R get_db.
Proof. intro w. now apply lift_same. Qed.

Lemma respects_random : respects R random.
Proof. intro w. now apply lift_same. Qed.

Lemma respects_now : respects R now.
Proof. intro w. now apply lift_same. Qed.

Lemma respects_new_object_id : respects R new_object_id.
Proof. intro w. now apply lift_same. Qed.

Lemma respects_make_history base days : respects R (make_history base days).
Proof. intro w. rewrite make_history_eq. now apply lift_same. Qed.

Lemma respects_with_store {A} c (op : Store -> A * Store) :
  (forall s, R s (snd (op s))) -> respects R (with_store c op).
Proof.
  intros Hop w. unfold with_store, lift.
  destruct (db w) as [s|] eqn:E; cbn [snd]; [|now rewrite E].
  destruct (fault c (opos w)); cbn [snd db tick_op]; [rewrite E; apply R_refl|].
  specialize (Hop s). destruct (op s); cbn [snd db set_db] in *. exact Hop.
Qed.

End Frame.

(** Splits a computation along its binds and case distinctions; [side]
    settles what a store operation does. *)
Ltac respect refl trans side :=
  repeat match goal with
    | |- respects _ ((fun _ => _) _) => cbv beta
    | |- respects _ (ret _) => apply (respects_ret _ refl)
    | |- respects _ (raise _) => apply (respects_raise _ refl)
    | |- respects _ get_db => apply (respects_get_db _ refl)
    | |- respects _ random => apply (respects_random _ refl)
    | |- respects _ now => apply (respects_now _ refl)
    | |- respects _ new_object_id => apply (respects_new_object_id _ refl)
    | |- respects _ (make_history _ _) => apply (respects_make_history _ refl)
    | |- respects _ (bind _ _) => apply (respects_bind _ trans); [|intro]
    | |- respects _ (try_except _ _) => apply (respects_try_except _ trans); [|intro]
    | |- respects _ (mapM _ _) => apply (respects_mapM _ refl trans); intro
    | |- respects _ (with_store _ _) => apply (respects_with_store _ refl); intro; side
    | |- respects _ (match ?x with _ => _ end) => destruct x
    end.

Lemma extends_refl {A} (l : list A) : extends l l.
Proof. exists []. now rewrite app_nil_r. Qed.

Lemma extends_trans {A} (a b c : list A) : extends a b -> extends b c -> extends a c.
Proof. intros [t ->] [u ->]. exists (t ++ u)%list. now rewrite app_assoc. Qed.

Lemma extends_app {A} (l t : list A) : extends l (l ++ t).
Proof. now exists t. Qed.

Lemma grows_refl s : grows s s.
Proof. repeat split; apply extends_refl. Qed.

Lemma grows_trans a b c : grows a b -> grows b c -> grows a c.
Proof.
  intros (H1 & H2 & H3) (H1' & H2' & H3').
  repeat split; eapply extends_trans; eassumption.
Qed.

Ltac grows_side :=
  unfold grows; cbn [snd product priceentry searchrecord];
  repeat split; first [apply extends_refl | apply extends_app].

Lemma ensure_product_in_db_grows name brand category :
  respects grows (ensure_product_in_db name brand category).
Proof.
  unfold ensure_product_in_db, find_one_product, insert_one_product,
    insert_many_priceentry, seed_entries, seed_entry, choice, randbelow,
    rand_price, uniform.
  respect grows_refl grows_trans grows_side.
Qed.

Lemma find_or_generate_prices_grows product_doc :
  respects grows (find_or_generate_prices product_doc).
Proof.
  unfold find_or_generate_prices, find_priceentry, insert_many_priceentry,
    seed_entries, seed_entry, ephemeral_entries, ephemeral_entry, choice,
    randbelow, rand_price, uniform.
  respect grows_refl grows_trans grows_side.
Qed.

Lemma search_products_grows q category brand price_min price_max :
  respects grows (search_products q category brand price_min price_max).
Proof.
  unfold search_products.
  apply (respects_bind _ grows_trans); [apply ensure_product_in_db_grows|]. intro.
  apply (respects_bind _ grows_trans); [apply find_or_generate_prices_grows|]. intro.
  unfold record_search, create_document_searchrecord, to_platform_price.
  respect grows_refl grows_trans grows_side.
Qed.

(** X12: whatever its outcome and whatever faults occur, a search with a
    store configured only appends: afterwards every collection of the
    store starts with the documents it had before, unchanged and in their
    order. *)
Theorem search_only_appends q category brand price_min price_max w s :
  db w = Some s ->
  exists s',
    db (snd (search_products q category brand price_min price_max w)) = Some s'
    /\ grows s s'.
Proof.
  intro Hdb.
  pose proof (search_products_grows q category brand price_min price_max w) as H.
  unfold lift in H. rewrite Hdb in H.
  destruct (db (snd _)) as [s'|]; [|contradiction]. now exists s'.
Qed.

Lemma same_products_refl s : same_products s s.
Proof. reflexivity. Qed.

Lemma same_products_trans a b c :
  same_products a b -> same_products b c -> same_products a c.
Proof. unfold same_products. congruence. Qed.

Ltac same_products_side := unfold same_products; reflexivity.

Lemma seeding_keeps_products pid norm (doc : ProductDoc) :
  respects same_products
    (seeded <- seed_entries pid norm ;;
     (if is_nil seeded then ret tt
      else insert_many_priceentry seeded ;;; ret tt) ;;;
     ret doc).
Proof.
  unfold insert_many_priceentry, seed_entries, seed_entry, choice, randbelow,
    rand_price, uniform.
  respect same_products_refl same_products_trans same_products_side.
Qed.

Lemma find_or_generate_prices_keeps_products product_doc :
  respects same_products (find_or_generate_prices product_doc).
Proof.
  unfold find_or_generate_prices, find_priceentry, insert_many_priceentry,
    seed_entries, seed_entry, ephemeral_entries, ephemeral_entry, choice,
    randbelow, rand_price, uniform.
  respect same_products_refl same_products_trans same_products_side.
Qed.

Lemma lift_same_products w w' s :
  db w = Some s -> lift same_products w w' ->
  exists s', db w' = Some s' /\ product s' = product s.
Proof.
  unfold lift. intros ->. destruct (db w') as [s'|]; [|contradiction].
  intro H. now exists s'.
Qed.

Lemma find_one_product_fault norm w s :
  db w = Some s -> fault Product (opos w) = true ->
  find_one_product norm w = (Raised StoreError, tick_op w).
Proof. intros Hdb Hf. unfold find_one_product. now apply with_store_fault with s. Qed.

Lemma insert_one_product_fault doc w s :
  db w = Some s -> fault Product (opos w) = true ->
  insert_one_product doc w = (Raised StoreError, tick_op (tick_oid w)).
Proof.
  intros Hdb Hf. unfold insert_one_product.
  unfold bind at 1. unfold new_object_id.
  now rewrite (with_store_fault _ _ (tick_oid w) s Hdb Hf).
Qed.

(** What the product resolver can do to the product collection, whatever
    faults occur: nothing, or append one product of the normalized name
    when none was found. *)
Lemma ensure_product_in_db_products name brand category w s :
  db w = Some s ->
  exists s',
    db (snd (ensure_product_in_db name brand category w)) = Some s'
    /\ (product s' = product s
        \/ (find (has_normalized_name (normalize name)) (product s) = None
            /\ exists doc,
                product s' = (product s ++ [doc])%list
                /\ p_normalized_name doc = Some (normalize name))).
Proof.
  intro Hdb. unfold ensure_product_in_db.
  unfold bind at 1. unfold get_db at 1. rewrite Hdb.
  destruct (fault Product (opos w)) eqn:F.
  { rewrite (bind_raised _ _ _ _ _ (find_one_product_fault _ _ _ Hdb F)).
    exists s. split; [exact Hdb | now left]. }
  rewrite (bind_ok _ _ _ _ _ (find_one_product_ok _ _ _ Hdb F)).
  destruct (find (has_normalized_name (normalize name)) (product s)) as [doc|] eqn:Hfind.
  { exists s. split; [exact Hdb | now left]. }
  rewrite (bind_ok _ _ _ _ _ (choice_eq _ _)).
  rewrite (bind_ok _ _ _ _ _ (now_eq _)).
  rewrite (bind_ok _ _ _ _ _ (now_eq _)).
  set (w3 := advance 0 1 (advance 0 1 (advance 1 0 (tick_op w)))).
  assert (Hdb3 : db w3 = Some s) by exact Hdb.
  unfold bind at 1. unfold get_db at 1. rewrite Hdb3.
  match goal with
  | |- context [insert_one_product ?d] => set (doc0 := d)
  end.
  destruct (fault Product (opos (tick_oid w3))) eqn:F2.
  { rewrite (bind_raised _ _ _ _ _ (insert_one_product_fault doc0 _ _ Hdb3 F2)).
    exists s. split; [exact Hdb | now left]. }
  rewrite (bind_ok _ _ _ _ _ (insert_one_product_ok doc0 _ _ Hdb3 F2)).
  set (s1 := mkStore (product s ++ [set_p_id (onext w3) doc0])%list
               (priceentry s) (searchrecord s)).
  set (w4 := set_db (Some s1) (tick_op (tick_oid w3))).
  pose proof (seeding_keeps_products (oid_str (onext w3)) (normalize name)
                (set_p_id (onext w3) doc0) w4) as Hk.
  destruct (lift_same_products w4 _ s1 eq_refl Hk) as (s' & Hdb' & Hp').
  exists s'. split; [exact Hdb'|]. right. split; [reflexivity|].
  exists (set_p_id (onext w3) doc0). split; [exact Hp' | reflexivity].
Qed.

Lemma NoDup_snoc {A} (l : list A) x : NoDup l -> ~ In x l -> NoDup (l ++ [x]).
Proof.
  induction 1 as [|y l Hy Hl IH]; intro Hx; simpl.
  - constructor; [intros [] | constructor].
  - constructor.
    + rewrite in_app_iff. intros [H | [H | []]]; [contradiction|].
      subst. apply Hx. now left.
    + apply IH. intro H. apply Hx. now right.
Qed.

Lemma find_none_name norm l :
  find (has_normalized_name norm) l = None ->
  ~ In (Some norm) (map p_normalized_name l).
Proof.
  intros Hfind Hin. apply in_map_iff in Hin. destruct Hin as (d & Hd & Hin).
  pose proof (find_none _ _ Hfind d Hin) as H.
  unfold has_normalized_name in H. rewrite Hd, String.eqb_refl in H. discriminate.
Qed.

(** X13: whatever its outcome and whatever faults occur, a search keeps
    the normalized names of the stored products distinct when they were
    distinct before. *)
Theorem search_keeps_names_unique q category brand price_min price_max w s :
  db w = Some s -> unique_names s ->
  exists s',
    db (snd (search_products q category brand price_min price_max w)) = Some s'
    /\ unique_names s'.
Proof.
  intros Hdb Hu.
  destruct (ensure_product_in_db_products q brand category w s Hdb)
    as (s1 & Hdb1 & Hcases).
  assert (Hu1 : unique_names s1).
  { unfold unique_names in *.
    destruct Hcases as [-> | (Hfind & doc & -> & Hn)]; [assumption|].
    rewrite map_app. cbn [map]. rewrite Hn.
    apply NoDup_snoc; [assumption | now apply find_none_name]. }
  unfold search_products.
  destruct (ensure_product_in_db q brand category w) as [[doc|e] w1] eqn:He;
    cbn [snd] in Hdb1.
  - rewrite (bind_ok _ _ _ _ _ He).
    match goal with
    | |- context [snd (?m w1)] =>
        assert (Hk : respects same_products m)
    end.
    { apply (respects_bind _ same_products_trans);
        [apply find_or_generate_prices_keeps_products|]. intro.
      unfold record_search, create_document_searchrecord, to_platform_price.
      respect same_products_refl same_products_trans same_products_side. }
    destruct (lift_same_products w1 _ s1 Hdb1 (Hk w1)) as (s' & Hdb' & Hp').
    exists s'. split; [exact Hdb'|]. unfold unique_names in *. now rewrite Hp'.
  - rewrite (bind_raised _ _ _ _ _ He). now exists s1.
Qed.

Section HealthyStore.

(** The product and price-entry collections answer every operation. *)
Hypothesis product_up : forall n, fault Product n = false.
Hypothesis priceentry_up : forall n, fault PriceEntry n = false.

(** The creating part of the product resolver (lines 128-151), run for the
    new record [doc0] in world [w3]. *)
Lemma create_and_seed doc0 norm w3 s :
  db w3 = Some s ->
  exists w',
    (inserted_id <- insert_one_product doc0 ;;
     let doc := set_p_id inserted_id doc0 in
     seeded <- seed_entries (oid_str inserted_id) norm ;;
     (if is_nil seeded then ret tt
      else insert_many_priceentry seeded ;;; ret tt) ;;;
     ret doc) w3 = (Ok (set_p_id (onext w3) doc0), w')
    /\ db w' =
       Some (mkStore
               (product s ++ [set_p_id (onext w3) doc0])%list
               (priceentry s ++
                  assign_ids (onext w3 + 1)%N
                    (map_at (seed_entry_at (oid_str (onext w3)) norm (base_at (rpos w3)))
                       18 18 PLATFORMS (rpos w3 + 1) (cpos w3)))%list
               (searchrecord s)).
Proof.
  intro Hdb3.
  rewrite (bind_ok _ _ _ _ _ (insert_one_product_ok _ _ _ Hdb3 (product_up _))).
  cbv zeta.
  set (s1 := mkStore (product s ++ [set_p_id (onext w3) doc0])%list
               (priceentry s) (searchrecord s)).
  set (w4 := set_db (Some s1) (tick_op (tick_oid w3))).
  rewrite (bind_ok _ _ _ _ _ (seed_entries_eq _ _ _)).
  match goal with
  | |- context [is_nil ?l] => change (is_nil l) with false; set (docs := l)
  end.
  cbv iota.
  destruct (insert_many_priceentry_ok docs (advance (1 + 7 * 18) (7 * 18) w4) s1
              eq_refl (priceentry_up _)) as (w' & Hrun & Hdb').
  rewrite (bind_ok _ _ _ _ _ (bind_ok _ _ _ _ _ Hrun)).
  exists w'. split; [reflexivity|]. rewrite Hdb'. reflexivity.
Qed.

Lemma ensure_product_in_db_creates name brand category w s :
  db w = Some s ->
  find (has_normalized_name (normalize name)) (product s) = None ->
  exists w',
    ensure_product_in_db name brand category w =
    (Ok (set_p_id (onext w) (transient_doc name brand category (rpos w) (cpos w))), w')
    /\ db w' =
       Some (mkStore
               (product s ++
                  [set_p_id (onext w) (transient_doc name brand category (rpos w) (cpos w))])%list
               (priceentry s ++ seeded_for name (onext w) w)%list
               (searchrecord s)).
Proof.
  intros Hdb Hfind. unfold ensure_product_in_db.
  unfold bind at 1. unfold get_db at 1. rewrite Hdb.
  rewrite (bind_ok _ _ _ _ _ (find_one_product_ok _ _ _ Hdb (product_up _))).
  rewrite Hfind.
  rewrite (bind_ok _ _ _ _ _ (choice_eq _ _)).
  rewrite (bind_ok _ _ _ _ _ (now_eq _)).
  rewrite (bind_ok _ _ _ _ _ (now_eq _)).
  rewrite !advance_advance.
  set (w3 := advance (1 + 0 + 0) (0 + 1 + 1) (tick_op w)).
  assert (Hdb3 : db w3 = Some s) by exact Hdb.
  unfold bind at 1. unfold get_db at 1. rewrite Hdb3.
  match goal with
  | |- context [insert_one_product ?d] => set (doc0 := d)
  end.
  destruct (create_and_seed doc0 (normalize name) w3 s Hdb3) as (w' & Hrun & Hdb').
  exists w'. split.
  - refine (eq_trans Hrun _). unfold doc0, transient_doc, w3.
    cbn [rpos cpos onext advance tick_op]. cbn [Nat.add].
    now rewrite ?Nat.add_0_r.
  - rewrite Hdb'. unfold doc0, transient_doc, seeded_for, w3.
    cbn [rpos cpos onext advance tick_op]. cbn [Nat.add].
    rewrite ?Nat.add_0_r. rewrite <- !Nat.add_assoc. reflexivity.
Qed.

(** X7: with a healthy store that has no product of the normalized name,
    the product resolver inserts exactly one product — the given name, its
    normalized name, the brand, the category or General, a fresh id — and
    seeds one price entry per platform carrying that id as product id;
    the search log is left alone, and the record returned is the one
    stored. *)
Theorem product_created_with_prices name brand category w s :
  db w = Some s ->
  find (has_normalized_name (normalize name)) (product s) = None ->
  exists doc es w' s',
    ensure_product_in_db name brand category w = (Ok doc, w')
    /\ db w' = Some s'
    /\ product s' = (product s ++ [doc])%list
    /\ priceentry s' = (priceentry s ++ es)%list
    /\ searchrecord s' = searchrecord s
    /\ p_id doc = Some (onext w)
    /\ p_name doc = Some name
    /\ p_normalized_name doc = Some (normalize name)
    /\ p_brand doc = brand
    /\ p_category doc = Some (category_or_general category)
    /\ map pe_platform es = PLATFORMS
    /\ Forall (fun e => pe_product_id e = Some (oid_str (onext w))) es.
Proof.
  intros Hdb Hfind.
  destruct (ensure_product_in_db_creates name brand category w s Hdb Hfind)
    as (w' & Hrun & Hdb').
  do 4 eexists. split; [exact Hrun|]. split; [exact Hdb'|].
  cbn [product priceentry searchrecord set_p_id transient_doc
       p_id p_name p_normalized_name p_brand p_category].
  do 8 (split; [reflexivity|]).
  split; [apply seeded_for_platforms | apply seeded_for_linked].
Qed.

(** X8: a product the resolver has just created is found again: resolving
    any name with the same normalized form returns the stored record and
    leaves the store as it is (nothing is inserted or seeded twice). *)
Theorem created_product_is_found_again name brand category name' brand' category' w s :
  db w = Some s ->
  find (has_normalized_name (normalize name)) (product s) = None ->
  normalize name' = normalize name ->
  exists doc w1 w2,
    ensure_product_in_db name brand category w = (Ok doc, w1)
    /\ ensure_product_in_db name' brand' category' w1 = (Ok doc, w2)
    /\ db w2 = db w1
    /\ rpos w2 = rpos w1 /\ cpos w2 = cpos w1 /\ onext w2 = onext w1.
Proof.
  intros Hdb Hfind Hnorm.
  destruct (ensure_product_in_db_creates name brand category w s Hdb Hfind)
    as (w1 & Hrun & Hdb1).
  eexists. exists w1, (tick_op w1). split; [exact Hrun|].
  split; [|now repeat split].
  apply (ensure_product_in_db_found _ _ _ _ _ _ Hdb1); [|apply product_up].
  rewrite Hnorm. cbn [product].
  apply find_app_last; [assumption | apply has_normalized_name_transient].
Qed.

End HealthyStore.

(** *** Edge cases of filtering and of the history *)

Lemma kept_inverted lo hi prices :
  hi < lo -> kept (Some (Fin lo)) (Some (Fin hi)) prices = [].
Proof.
  intro H. unfold kept. induction prices as [|p l IH]; [reflexivity|].
  cbn [filter]. rewrite IH.
  destruct (in_range (Some (Fin lo)) (Some (Fin hi)) (pe_price p)) eqn:E; [|reflexivity].
  apply in_range_spec in E. destruct E as [H1 H2].
  specialize (H1 _ eq_refl). specialize (H2 _ eq_refl).
  cbn [at_least at_most] in H1, H2. lra.
Qed.

(** X11: when the lower bound exceeds the upper bound no price qualifies:
    the search is still answered, with one result whose platform list is
    empty, whatever the resolved prices are. *)
Theorem inverted_bounds_keep_nothing q category brand lo hi w doc w1 prices w2 :
  ensure_product_in_db q brand category w = (Ok doc, w1) ->
  find_or_generate_prices doc w1 = (Ok prices, w2) ->
  hi < lo ->
  exists resp w' r,
    search_products q category brand (Some (Fin lo)) (Some (Fin hi)) w = (Ok resp, w')
    /\ results resp = [r]
    /\ r_platforms r = [].
Proof.
  intros He Hf Hinv.
  assert (Hv : valid (kept (Some (Fin lo)) (Some (Fin hi)) prices) = true).
  { now rewrite kept_inverted. }
  rewrite (search_products_ok _ _ _ _ _ _ _ _ _ _ He Hf Hv).
  do 3 eexists. split; [reflexivity|]. split; [reflexivity|].
  cbn [result_of r_platforms]. now rewrite kept_inverted.
Qed.

Lemma range_down_count days : List.length (range_down days) = Z.to_nat (days + 1).
Proof.
  unfold range_down. destruct (days <? 0)%Z eqn:E.
  - apply Z.ltb_lt in E. simpl. lia.
  - apply Z.ltb_ge in E. rewrite length_map, length_seq. lia.
Qed.

(** X4: for any [days] whose dates are representable, negative ones
    included, [make_history] returns [max (days + 1) 0] points — none for
    a negative [days] — using one random draw and one clock read per
    point and nothing else. *)
Theorem make_history_count base days w :
  ((0 <= days)%Z -> dates_representable days w) ->
  exists pts,
    make_history_checked base days w =
    (Ok pts, advance (Z.to_nat (days + 1)) (Z.to_nat (days + 1)) w)
    /\ List.length pts = Z.to_nat (days + 1)
    /\ ((days < 0)%Z -> pts = []).
Proof.
  intro Hrep. rewrite (make_history_checked_eq _ _ _ Hrep).
  rewrite make_history_eq, range_down_count. eexists. split; [reflexivity|].
  split; [now rewrite history_points_length, range_down_count|].
  intro Hneg. unfold range_down.
  apply Z.ltb_lt in Hneg. now rewrite Hneg.
Qed.

(** *** Recent searches *)

Lemma recent_searches_eq limit w :
  recent_searches limit w =
  (Ok (mkRecentResponse
         (if is_nil (logged_items limit w) then slice_to limit SAMPLE_SEARCHES
          else logged_items limit w)
         (clock (cpos w))),
   mkWorld (db w) (rpos w) (S (cpos w))
     (match db w with Some _ => S (opos w) | None => opos w end) (onext w)).
Proof.
  unfold recent_searches, logged_items.
  unfold bind at 1. unfold get_db.
  destruct (db w) as [s|] eqn:Hdb.
  - unfold bind at 1. unfold try_except. unfold bind at 1. unfold with_store.
    rewrite Hdb. destruct (fault SearchRecord (opos w)).
    + unfold ret at 1. unfold bind, now, ret, tick_clock, tick_op. simpl.
      now rewrite Hdb.
    + unfold ret at 1. unfold bind, now, ret, tick_clock, tick_op, set_db. simpl.
      reflexivity.
  - unfold bind, ret, now, tick_clock. simpl. now rewrite Hdb.
Qed.

Lemma slice_to_length {A} limit (l : list A) :
  (0 <= limit)%Z ->
  List.length (slice_to limit l) = Nat.min (Z.to_nat limit) (List.length l).
Proof.
  intro H. unfold slice_to.
  destruct (limit <? 0)%Z eqn:E; [apply Z.ltb_lt in E; lia|].
  apply length_firstn.
Qed.

(** X14: the recent-searches endpoint never raises, even when the store
    read fails, and never changes the store; without a store, on a failed
    read, or when the read yields no record, it answers with the first
    [limit] of the three sample items (for [limit >= 0], [min limit 3]
    of them). *)
Theorem recent_searches_falls_back limit w :
  exists resp w',
    recent_searches limit w = (Ok resp, w')
    /\ db w' = db w /\ rpos w' = rpos w /\ onext w' = onext w
    /\ (logged_items limit w = [] ->
        rs_items resp = slice_to limit SAMPLE_SEARCHES
        /\ ((0 <= limit)%Z ->
            List.length (rs_items resp) = Nat.min (Z.to_nat limit) 3))
    /\ (db w = None -> logged_items limit w = [])
    /\ (fault SearchRecord (opos w) = true -> logged_items limit w = [])
    /\ (forall s, db w = Some s -> recent_query (searchrecord s) limit = [] ->
                  logged_items limit w = []).
Proof.
  rewrite recent_searches_eq. do 2 eexists. split; [reflexivity|].
  cbn [db rpos onext rs_items]. do 3 (split; [reflexivity|]).
  split; [|split; [|split]].
  - intros ->. cbn [is_nil]. split; [reflexivity|].
    intro H. now rewrite slice_to_length.
  - unfold logged_items. now intros ->.
  - unfold logged_items. intros ->. now destruct (db w).
  - unfold logged_items. intros s -> ->. now destruct (fault SearchRecord (opos w)).
Qed.

(** X15: when the store read succeeds and yields records, the endpoint
    answers with exactly those records, in the order of the cursor, each
    with its query, filters, result count and creation time; no sample
    item is mixed in. *)
Theorem recent_searches_lists_the_log limit w s :
  db w = Some s ->
  fault SearchRecord (opos w) = false ->
  recent_query (searchrecord s) limit <> [] ->
  exists resp w',
    recent_searches limit w = (Ok resp, w')
    /\ rs_items resp = map logged_of (recent_query (searchrecord s) limit)
    /\ db w' = Some s.
Proof.
  intros Hdb Hf Hne. rewrite recent_searches_eq. do 2 eexists.
  split; [reflexivity|]. cbn [rs_items db]. split; [|exact Hdb].
  unfold logged_items. rewrite Hdb, Hf.
  destruct (recent_query (searchrecord s) limit); [congruence | reflexivity].
Qed.

(** *** Trending deals are stateless *)

Lemma mapM_advance {A B} (f : A -> M B) (P : B -> Prop) nr nc l :
  (forall x w, exists y, f x w = (Ok y, advance nr nc w) /\ P y) ->
  forall w,
    exists ys,
      mapM f l w =
      (Ok ys, advance (List.length l * nr) (List.length l * nc) w)
      /\ Forall P ys.
Proof.
  intro Hf. induction l as [|x l IH]; intro w; cbn [mapM List.length].
  - exists []. rewrite advance_0. split; [reflexivity | constructor].
  - destruct (Hf x w) as (y & Hy & Py).
    destruct (IH (advance nr nc w)) as (ys & Hys & Pys).
    exists (y :: ys).
    rewrite (bind_ok _ _ _ _ _ Hy), (bind_ok _ _ _ _ _ Hys).
    unfold ret. rewrite advance_advance. split; [reflexivity | now constructor].
Qed.

Lemma trending_item_world z w :
  exists it,
    trending_item z w = (Ok it, advance 13 4 w)
    /\ Forall (deal_ok (ti_name it)) (ti_platforms it).
Proof.
  unfold trending_item.
  rewrite (bind_ok _ _ _ _ _ (choice_eq _ _)).
  rewrite (bind_ok _ _ _ _ _ (choice_eq _ _)).
  rewrite (bind_ok _ _ _ _ _ (choice_eq _ _)).
  rewrite (bind_ok _ _ _ _ _ (uniform_eq _ _ _)).
  unfold sample. rewrite (bind_ok _ _ _ _ _ (sample_loop_eq _ _ _ _)).
  rewrite (bind_ok _ _ _ _ _ (mapM_at _ _ _ _ _ (deal_eq _ _) _)).
  rewrite (bind_ok _ _ _ _ _ (choice_eq _ _)).
  rewrite sample_at_length. rewrite !advance_advance.
  unfold ret. eexists. split; [reflexivity|].
  cbn [ti_name ti_platforms]. apply map_at_Forall. intros. now split.
Qed.

(** X16: the trending endpoint never raises and is stateless: for any
    limit and any random source it only advances the random cursor (13
    draws an item) and the clock cursor (4 reads an item and one for the
    response), leaving the store, its operation counter and the id
    counter alone; every deal is priced in INR and links to the search of
    its item's name on its platform. *)
Theorem trending_deals_is_stateless limit w :
  exists resp,
    trending_deals limit w =
    (Ok resp, advance (Z.to_nat limit * 13) (Z.to_nat limit * 4 + 1) w)
    /\ Forall (fun it => Forall (deal_ok (ti_name it)) (ti_platforms it))
         (items resp).
Proof.
  unfold trending_deals.
  destruct (mapM_advance trending_item
              (fun it => Forall (deal_ok (ti_name it)) (ti_platforms it))
              13 4 (range limit) trending_item_world w) as (its & Hits & Hall).
  rewrite (bind_ok _ _ _ _ _ Hits), (bind_ok _ _ _ _ _ (now_eq _)).
  unfold ret. rewrite advance_advance.
  unfold range. rewrite length_map, length_seq, Nat.add_0_r.
  eexists. split; [reflexivity | exact Hall].
Qed.

Section UnitDraws.

(** [random.random()] returns a value of the interval [0, 1). *)
Hypothesis rnd_unit : forall n, 0 <= rnd n < 1.

Lemma base_at_range r : 499 <= base_at r <= 49999.
Proof. unfold base_at. destruct (rnd_unit r). split; nra. Qed.

Lemma rating_at_range r : 3.5 <= rating_at r <= 5.
Proof.
  unfold rating_at. destruct (rnd_unit r) as [H0 H1].
  pose proof (round1_between 35 50 (3.5 + (5.0 - 3.5) * rnd r)) as H.
  change (inject_Z 35) with 35 in H. change (inject_Z 50) with 50 in H.
  assert (H35 : 35 <= (3.5 + (5.0 - 3.5) * rnd r) * 10) by nra.
  assert (H50 : (3.5 + (5.0 - 3.5) * rnd r) * 10 <= 50) by nra.
  specialize (H H35 H50). unfold Qdiv in H. change (/ 10) with (1 # 10) in H. lra.
Qed.

Lemma delivery_at_in r : In (delivery_at r) DELIVERIES.
Proof.
  unfold delivery_at. apply nth_In. apply index_of_bound; [assumption|].
  simpl. lia.
Qed.

Lemma generated_price_range r r' :
  499 * 0.85 - 0.005 <= jitter (base_at r) (rnd r') <= 49999 * 1.15 + 0.005.
Proof.
  pose proof (base_at_range r) as [Hb1 Hb2].
  pose proof (jitter_bounds (base_at r) (rnd r')) as H.
  assert (Hb0 : 0 <= base_at r) by lra.
  specialize (H Hb0 (rnd_unit r')). lra.
Qed.

Lemma seed_entry_at_ok pid norm r0 p r c :
  entry_ok (seed_entry_at pid norm (base_at r0) p r c).
Proof.
  unfold entry_ok, seed_entry_at.
  cbn [pe_price pe_rating pe_delivery pe_history].
  split; [apply generated_price_range|]. split; [apply rating_at_range|].
  split; [apply delivery_at_in|].
  split; [now rewrite history_points_length | apply history_points_floor].
Qed.

Lemma ephemeral_entry_at_ok r0 p r c :
  entry_ok (ephemeral_entry_at (base_at r0) p r c).
Proof.
  unfold entry_ok, ephemeral_entry_at.
  cbn [pe_price pe_rating pe_delivery pe_history].
  split; [apply generated_price_range|]. split; [apply rating_at_range|].
  split; [apply delivery_at_in|].
  split; [now rewrite history_points_length | apply history_points_floor].
Qed.

(** X5: every entry the price resolver generates (ephemeral path, or
    seeding an empty persisted set) is well formed: price within the range
    a base of 499..49999 allows, rating between 3.5 and 5, delivery one of
    the three fixed strings, and a history of 15 points, none below
    100.0. *)
Theorem generated_entries_well_formed product_doc w :
  generates product_doc w ->
  exists es w',
    find_or_generate_prices product_doc w = (Ok es, w')
    /\ Forall entry_ok es.
Proof.
  intros [Heph | (s & oid & Hdb & Hid & Hnone & Hf1 & Hf2)].
  - rewrite (find_or_generate_prices_ephemeral _ _ Heph), ephemeral_entries_eq.
    do 2 eexists. split; [reflexivity|].
    apply map_at_Forall. intros. apply ephemeral_entry_at_ok.
  - destruct (find_or_generate_prices_seeds _ _ _ _ Hdb Hid Hnone Hf1 Hf2)
      as (w' & Hrun & _).
    rewrite Hrun. do 2 eexists. split; [reflexivity|].
    apply assign_ids_Forall; [now intros o e He|].
    apply map_at_Forall. intros. apply seed_entry_at_ok.
Qed.

Lemma seeded_for_ok name o w : Forall entry_ok (seeded_for name o w).
Proof.
  unfold seeded_for. apply assign_ids_Forall; [now intros o' e He|].
  apply map_at_Forall. intros. apply seed_entry_at_ok.
Qed.

Lemma entries_ok_valid lo hi es : Forall entry_ok es -> valid (kept lo hi es) = true.
Proof.
  intro H. apply valid_kept. eapply Forall_impl; [|exact H].
  intros e (_ & Hr & _). now apply rating_ok_range.
Qed.

(** X6: without a store the product resolver does not raise and performs
    no store operation; it returns a record without identity that echoes
    the name and the brand, carries the normalized name, the category or
    General, and one of the sample images. *)
Theorem product_without_store name brand category w :
  db w = None ->
  exists doc w',
    ensure_product_in_db name brand category w = (Ok doc, w')
    /\ p_id doc = None
    /\ p_name doc = Some name
    /\ p_normalized_name doc = Some (normalize name)
    /\ p_brand doc = brand
    /\ p_category doc = Some (category_or_general category)
    /\ (exists img, p_image doc = Some img /\ In img SAMPLE_IMAGES)
    /\ db w' = None /\ opos w' = opos w /\ onext w' = onext w.
Proof.
  intro Hdb. rewrite (ensure_product_in_db_no_store _ _ _ _ Hdb).
  do 2 eexists. split; [reflexivity|].
  cbn [transient_doc p_id p_name p_normalized_name p_brand p_category p_image].
  do 5 (split; [reflexivity|]). split.
  - eexists. split; [reflexivity|]. apply nth_In.
    apply index_of_bound; [assumption | simpl; lia].
  - now repeat split.
Qed.

(** X10: without a store a search never fails and persists nothing: it
    answers with one result that echoes the query as name and the brand,
    has the category or General and a fresh id, and whose platforms are
    generated entries, none priced below a [price_min] or above a
    [price_max] that is a number — all seven platforms, in order, when no
    bound is given. *)
Theorem search_without_store q category brand price_min price_max w :
  db w = None ->
  exists resp w' r,
    search_products q category brand price_min price_max w = (Ok resp, w')
    /\ db w' = None /\ opos w' = opos w
    /\ query resp = q
    /\ filters resp = mkFilters category brand price_min price_max
    /\ results resp = [r]
    /\ r_name r = q
    /\ r_brand r = brand
    /\ r_category r = Some (category_or_general category)
    /\ Forall (fun p => (forall l, price_min = Some (Fin l) -> l <= price p)
                      /\ (forall h, price_max = Some (Fin h) -> price p <= h))
         (r_platforms r)
    /\ (price_min = None -> price_max = None ->
        map platform (r_platforms r) = PLATFORMS).
Proof.
  intro Hdb.
  pose proof (ensure_product_in_db_no_store q brand category w Hdb) as He.
  set (doc := transient_doc q brand category (rpos w) (cpos w)) in *.
  set (w1 := advance 1 2 w) in *.
  assert (Hdb1 : db w1 = None) by exact Hdb.
  pose proof (find_or_generate_prices_ephemeral doc w1 (or_introl Hdb1)) as Hf.
  rewrite ephemeral_entries_eq in Hf.
  set (es := map_at _ _ _ _ _ _) in Hf. set (w2 := advance _ _ w1) in Hf.
  assert (Hok : Forall entry_ok es).
  { apply map_at_Forall. intros. apply ephemeral_entry_at_ok. }
  rewrite (search_products_ok _ _ _ _ _ _ _ _ _ _ He Hf
             (entries_ok_valid _ _ _ Hok)).
  rewrite record_search_no_store by exact Hdb.
  do 3 eexists. split; [reflexivity|].
  cbn [snd response_of query filters results result_of r_name r_brand r_category
       r_platforms doc transient_doc p_name p_brand p_category].
  split; [exact Hdb|]. do 7 (split; [reflexivity|]). split.
  - cbn [r_platforms result_of].
    apply Forall_forall. intros p Hp. apply in_map_iff in Hp.
    destruct Hp as (e & <- & He'). unfold kept in He'.
    apply filter_In in He'. destruct He' as [_ Hr].
    apply in_range_spec in Hr. destruct Hr as [Hlo Hhi].
    cbn [platform_price_of price].
    split; intros b Hb; [exact (Hlo _ Hb) | exact (Hhi _ Hb)].
  - intros -> ->. unfold kept. rewrite filter_all by reflexivity.
    cbn [r_platforms result_of].
    rewrite map_map. cbn [platform_price_of platform].
    now apply generated_platforms.
Qed.

Section SeededOnce.

Hypothesis product_up : forall n, fault Product n = false.
Hypothesis priceentry_up : forall n, fault PriceEntry n = false.

(** X9: with a healthy store, once a search has created a product and
    seeded its prices, a search for any query with the same normalized
    form and the same bounds returns the same product id, name and
    platform entries, and adds no product and no price entry. *)
Theorem repeated_search_is_stable
    q category brand q' category' brand' price_min price_max w s :
  db w = Some s ->
  find (has_normalized_name (normalize q)) (product s) = None ->
  filter (has_product_id (oid_str (onext w))) (priceentry s) = [] ->
  normalize q' = normalize q ->
  exists resp1 w1 r1 resp2 w2 r2 s1 s2,
    search_products q category brand price_min price_max w = (Ok resp1, w1)
    /\ results resp1 = [r1]
    /\ search_products q' category' brand' price_min price_max w1 = (Ok resp2, w2)
    /\ results resp2 = [r2]
    /\ r_id r2 = r_id r1 /\ r_name r2 = r_name r1
    /\ r_platforms r2 = r_platforms r1
    /\ db w1 = Some s1 /\ db w2 = Some s2
    /\ product s2 = product s1 /\ priceentry s2 = priceentry s1.
Proof.
  intros Hdb Hfind Hfresh Hnorm.
  destruct (ensure_product_in_db_creates product_up priceentry_up
              q brand category w s Hdb Hfind) as (wa & He & Hdba).
  set (doc := set_p_id (onext w) (transient_doc q brand category (rpos w) (cpos w))) in *.
  set (es := seeded_for q (onext w) w) in *.
  set (sa := mkStore (product s ++ [doc])%list (priceentry s ++ es)%list
               (searchrecord s)) in *.
  assert (Hes : filter (has_product_id (oid_str (onext w))) (priceentry sa) = es).
  { cbn [priceentry sa]. rewrite filter_app, Hfresh. cbn [app].
    apply filter_linked, seeded_for_linked. }
  assert (Hne : es <> []).
  { intro E. pose proof (seeded_for_platforms q (onext w) w) as Hp.
    fold es in Hp. rewrite E in Hp. discriminate. }
  assert (Hdoc : find (has_normalized_name (normalize q')) (product sa) = Some doc).
  { rewrite Hnorm. cbn [product sa].
    apply find_app_last; [assumption | apply has_normalized_name_transient]. }
  assert (Hv : valid (kept price_min price_max es) = true).
  { apply entries_ok_valid, seeded_for_ok. }
  (* the first search *)
  assert (Hf : find_or_generate_prices doc wa = (Ok es, tick_op wa)).
  { rewrite <- Hes.
    apply (find_or_generate_prices_persisted doc wa sa (onext w) Hdba eq_refl);
      [now rewrite Hes | apply priceentry_up]. }
  pose proof (search_products_ok _ _ _ _ _ _ _ _ _ _ He Hf Hv) as Hrun1.
  set (w1 := snd (record_search q brand category price_min price_max
                    (List.length (kept price_min price_max es))
                    (recording_world (tick_op wa)))) in *.
  destruct (record_search_store q brand category price_min price_max
              (List.length (kept price_min price_max es))
              (recording_world (tick_op wa)) sa Hdba)
    as (s1 & Hdb1 & Hp1 & Hpe1).
  fold w1 in Hdb1.
  (* the second search *)
  assert (He2 : ensure_product_in_db q' brand' category' w1 = (Ok doc, tick_op w1)).
  { apply (ensure_product_in_db_found _ _ _ _ _ _ Hdb1); [|apply product_up].
    now rewrite Hp1. }
  assert (Hdb1' : db (tick_op w1) = Some s1) by exact Hdb1.
  assert (Hf2 : find_or_generate_prices doc (tick_op w1) =
                (Ok es, tick_op (tick_op w1))).
  { rewrite <- Hes, <- Hpe1.
    apply (find_or_generate_prices_persisted doc (tick_op w1) s1 (onext w) Hdb1' eq_refl);
      [now rewrite Hpe1, Hes | apply priceentry_up]. }
  pose proof (search_products_ok _ _ _ _ _ _ _ _ _ _ He2 Hf2 Hv) as Hrun2.
  destruct (record_search_store q' brand' category' price_min price_max
              (List.length (kept price_min price_max es))
              (recording_world (tick_op (tick_op w1))) s1 Hdb1)
    as (s2 & Hdb2 & Hp2 & Hpe2).
  do 8 eexists.
  split; [exact Hrun1|]. split; [reflexivity|].
  split; [exact Hrun2|]. split; [reflexivity|].
  split; [reflexivity|]. split; [reflexivity|]. split; [reflexivity|].
  split; [exact Hdb1|]. split; [exact Hdb2|]. split; assumption.
Qed.

End SeededOnce.

End UnitDraws.

End Program.

(* ------------------------------------------------------------------ *)
(** ** The search record never decides the response *)

Section RecordFaults.

Variable rnd : nat -> Q.
Variable clock : nat -> Z.
Variable fault : Coll -> nat -> bool.

(** Resolution does not touch the search-record collection, so masking
  the faults of that collection does not change it. *)
Lemma ensure_product_in_db_masked name brand category w :
ensure_product_in_db rnd clock (masked fault) name brand category w =
ensure_product_in_db rnd clock fault name brand category w.
Proof. reflexivity. Qed.

Lemma find_or_generate_prices_masked product_doc w :
find_or_generate_prices rnd clock (masked fault) product_doc w =
find_or_generate_prices rnd clock fault product_doc w.
Proof. reflexivity. Qed.

(** C7: whether or not the search-record write raises, the endpoint
  returns what it returns when that write succeeds: the exception is
  caught and dropped, and status and body are the same. *)
Theorem search_response_ignores_record_failure
  q category brand price_min price_max w :
fst (search_products rnd clock fault q category brand price_min price_max w) =
fst (search_products rnd clock (masked fault) q category brand price_min price_max w).
Proof.
pose proof (ensure_product_in_db_masked q brand category w) as He'.
destruct (ensure_product_in_db rnd clock fault q brand category w)
  as [[doc|e] w1] eqn:He.
- pose proof (find_or_generate_prices_masked doc w1) as Hf'.
  destruct (find_or_generate_prices rnd clock fault doc w1)
    as [[prices|e] w2] eqn:Hf.
  + destruct (valid (kept price_min price_max prices)) eqn:Hv.
    * rewrite (search_products_ok _ _ _ _ _ _ _ _ _ _ _ _ _ He Hf Hv).
      now rewrite (search_products_ok _ _ _ _ _ _ _ _ _ _ _ _ _ He' Hf' Hv).
    * rewrite (search_products_invalid _ _ _ _ _ _ _ _ _ _ _ _ _ He Hf Hv).
      now rewrite (search_products_invalid _ _ _ _ _ _ _ _ _ _ _ _ _ He' Hf' Hv).
  + unfold search_products.
    rewrite (bind_ok _ _ _ _ _ He), (bind_raised _ _ _ _ _ Hf).
    now rewrite (bind_ok _ _ _ _ _ He'), (bind_raised _ _ _ _ _ Hf').
- unfold search_products.
  now rewrite (bind_raised _ _ _ _ _ He), (bind_raised _ _ _ _ _ He').
Qed.

End RecordFaults.

(* ------------------------------------------------------------------ *)
(** ** The normalized name *)

Lemma all_chars_app P a b :
  all_chars P (a ++ b) = all_chars P a && all_chars P b.
Proof. induction a; simpl; [reflexivity|]. now rewrite IHa, andb_assoc. Qed.

Lemma append_assoc (a b c : string) : (a ++ b) ++ c = a ++ (b ++ c).
Proof. induction a; simpl; [reflexivity | now rewrite IHa]. Qed.

Lemma append_nil_r (a : string) : a ++ "" = a.
Proof. induction a; simpl; [reflexivity | now rewrite IHa]. Qed.

Lemma is_empty_app_r a c b : Str.is_empty (a ++ String c b) = false.
Proof. now destruct a. Qed.

Lemma split_from_chars P s : forall cur,
  all_chars P s = true -> all_chars P cur = true ->
  Forall (fun w => all_chars P w = true) (Str.split_from s cur).
Proof.
  induction s as [|c s IH]; intros cur Hs Hc; simpl in *.
  - destruct (Str.is_empty cur); repeat constructor; assumption.
  - apply andb_true_iff in Hs. destruct Hs as [Hc0 Hs].
    destruct (Str.is_space c).
    + destruct (Str.is_empty cur); [|constructor; [assumption|]]; now apply IH.
    + apply IH; [assumption|]. rewrite all_chars_app, Hc. simpl. now rewrite Hc0.
Qed.

Lemma split_from_words s : forall cur,
  all_chars not_space cur = true -> Forall is_word (Str.split_from s cur).
Proof.
  induction s as [|c s IH]; intros cur Hc; simpl.
  - destruct (Str.is_empty cur) eqn:E; repeat constructor; assumption.
  - destruct (Str.is_space c) eqn:Es.
    + destruct (Str.is_empty cur) eqn:E; [now apply IH|].
      constructor; [now split | now apply IH].
    + apply IH. rewrite all_chars_app, Hc. simpl. unfold not_space. now rewrite Es.
Qed.

Lemma split_from_word w : forall t cur,
  all_chars not_space w = true ->
  Str.split_from (w ++ t) cur = Str.split_from t (cur ++ w).
Proof.
  induction w as [|c w IH]; intros t cur Hw; simpl in *.
  - now rewrite append_nil_r.
  - apply andb_true_iff in Hw. destruct Hw as [Hc Hw].
    unfold not_space in Hc. apply negb_true_iff in Hc. rewrite Hc.
    rewrite IH by assumption. now rewrite append_assoc.
Qed.

Lemma split_join ws :
  Forall is_word ws -> Str.split (Str.join " " ws) = ws.
Proof.
  unfold Str.split, Str.join.
  induction 1 as [|w ws [Hne Hw] Hws IH]; [reflexivity|].
  cbn [concat]. destruct ws as [|w' ws'].
  - rewrite <- (append_nil_r w) at 1. rewrite split_from_word by assumption.
    simpl. now rewrite Hne.
  - rewrite split_from_word by assumption. cbn [append Str.split_from].
    change (Str.is_space " ") with true. cbv iota. cbn [append]. rewrite Hne.
    now rewrite IH.
Qed.

Lemma split_from_lstrip s : Str.split_from (Str.lstrip s) "" = Str.split_from s "".
Proof.
  induction s as [|c s IH]; simpl; [reflexivity|].
  destruct (Str.is_space c) eqn:E; [assumption|]. simpl. now rewrite E.
Qed.

Lemma split_from_rstrip s : forall cur,
  Str.split_from (Str.rstrip s) cur = Str.split_from s cur.
Proof.
  induction s as [|c s IH]; intro cur; [reflexivity|].
  cbn [Str.rstrip Str.split_from].
  destruct (Str.is_space c) eqn:E; cbn [andb].
  - destruct (Str.is_empty (Str.rstrip s)) eqn:Er.
    + assert (Hnil : Str.split_from s "" = []).
      { rewrite <- IH. destruct (Str.rstrip s); [reflexivity | discriminate]. }
      rewrite Hnil. reflexivity.
    + cbn [Str.split_from]. rewrite E, !IH. reflexivity.
  - cbn [Str.split_from]. rewrite E. apply IH.
Qed.

Lemma split_strip s : Str.split (Str.strip s) = Str.split s.
Proof.
  unfold Str.split, Str.strip. now rewrite split_from_rstrip, split_from_lstrip.
Qed.

Lemma lower_ascii_idem c : Str.lower_ascii (Str.lower_ascii c) = Str.lower_ascii c.
Proof. destruct c as [[] [] [] [] [] [] [] []]; reflexivity. Qed.

Lemma lower_is_lower s : all_chars is_lower (Str.lower s) = true.
Proof.
  induction s as [|c s IH]; simpl; [reflexivity|].
  rewrite IH, andb_true_r. unfold is_lower.
  rewrite lower_ascii_idem. apply Ascii.eqb_refl.
Qed.

Lemma lower_fixed s : all_chars is_lower s = true -> Str.lower s = s.
Proof.
  induction s as [|c s IH]; simpl; [reflexivity|].
  intro H. apply andb_true_iff in H. destruct H as [Hc Hs].
  unfold is_lower in Hc. apply Ascii.eqb_eq in Hc. now rewrite Hc, IH.
Qed.

Lemma all_chars_join P ws :
  P " "%char = true ->
  Forall (fun w => all_chars P w = true) ws ->
  all_chars P (Str.join " " ws) = true.
Proof.
  intros Hsp. unfold Str.join. induction 1 as [|w ws Hw Hws IH]; [reflexivity|].
  cbn [concat]. destruct ws; [assumption|].
  rewrite all_chars_app, Hw. cbn [append all_chars andb]. now rewrite Hsp, IH.
Qed.

Lemma normalize_words s : normalize s = Str.join " " (Str.split (Str.lower s)).
Proof. unfold normalize. now rewrite split_strip. Qed.

(** X1: on ASCII names normalizing is idempotent: the normalized form of
    an ASCII name is its own key. *)
Theorem normalize_idempotent s :
  ascii_text s -> normalize (normalize s) = normalize s.
Proof.
  intros _. rewrite !normalize_words.
  set (ws := Str.split (Str.lower s)).
  assert (Hlow : Forall (fun w => all_chars is_lower w = true) ws).
  { apply split_from_chars; [apply lower_is_lower | reflexivity]. }
  assert (Hw : Forall is_word ws) by (apply split_from_words; reflexivity).
  rewrite (lower_fixed (Str.join " " ws)) by (apply all_chars_join; [reflexivity | assumption]).
  now rewrite split_join.
Qed.

Lemma split_from_spaces_l p : forall s,
  all_chars Str.is_space p = true ->
  Str.split_from (p ++ s) "" = Str.split_from s "".
Proof.
  induction p as [|c p IH]; intros s H; simpl in *; [reflexivity|].
  apply andb_true_iff in H. destruct H as [Hc Hp]. rewrite Hc. now apply IH.
Qed.

Lemma split_from_spaces p : forall cur,
  all_chars Str.is_space p = true ->
  Str.split_from p cur = if Str.is_empty cur then [] else [cur].
Proof.
  induction p as [|c p IH]; intros cur H; simpl in *; [reflexivity|].
  apply andb_true_iff in H. destruct H as [Hc Hp]. rewrite Hc.
  rewrite (IH "" Hp). reflexivity.
Qed.

Lemma split_from_spaces_r p s : forall cur,
  all_chars Str.is_space p = true ->
  Str.split_from (s ++ p) cur = Str.split_from s cur.
Proof.
  induction s as [|c s IH]; intros cur H; simpl.
  - now apply split_from_spaces.
  - now rewrite !IH.
Qed.

Lemma lower_app a b : Str.lower (a ++ b) = Str.lower a ++ Str.lower b.
Proof. induction a; simpl; [reflexivity | now rewrite IHa]. Qed.

Lemma lower_ascii_space c : Str.is_space (Str.lower_ascii c) = Str.is_space c.
Proof. destruct c as [[] [] [] [] [] [] [] []]; reflexivity. Qed.

Lemma lower_spaces p :
  all_chars Str.is_space p = true -> all_chars Str.is_space (Str.lower p) = true.
Proof.
  induction p as [|c p IH]; simpl; [reflexivity|].
  intro H. apply andb_true_iff in H. destruct H as [Hc Hp].
  now rewrite lower_ascii_space, Hc, IH.
Qed.

Lemma normalize_padding pre s post :
  all_chars Str.is_space pre = true -> all_chars Str.is_space post = true ->
  normalize (pre ++ s ++ post) = normalize s.
Proof.
  intros Hpre Hpost. rewrite !normalize_words, !lower_app. unfold Str.split.
  rewrite split_from_spaces_l by now apply lower_spaces.
  now rewrite split_from_spaces_r by now apply lower_spaces.
Qed.

Lemma split_from_run p : forall a b cur,
  p <> "" -> all_chars Str.is_space p = true ->
  Str.split_from (a ++ p ++ b) cur = Str.split_from (a ++ " " ++ b) cur.
Proof.
  intros a b cur Hne Hp. revert cur.
  induction a as [|c a IH]; intro cur; cbn [append Str.split_from].
  - destruct p as [|c p]; [congruence|]. cbn [append Str.split_from all_chars] in *.
    apply andb_true_iff in Hp. destruct Hp as [Hc Hp]. rewrite Hc.
    change (Str.is_space " ") with true. cbv iota.
    now rewrite (split_from_spaces_l p b Hp).
  - now rewrite !IH.
Qed.

(** X2: the key of an ASCII name does not depend on its whitespace:
    padding of ASCII whitespace on either side is dropped, and a run of
    ASCII whitespace inside counts as one space. *)
Theorem normalize_whitespace pre a p b post :
  ascii_text (pre ++ (a ++ p ++ b) ++ post) ->
  all_chars Str.is_space pre = true -> all_chars Str.is_space post = true ->
  p <> "" -> all_chars Str.is_space p = true ->
  normalize (pre ++ (a ++ p ++ b) ++ post) = normalize (a ++ " " ++ b).
Proof.
  intros _ Hpre Hpost Hne Hp. rewrite normalize_padding by assumption.
  rewrite !normalize_words, !lower_app. unfold Str.split.
  assert (Hne' : Str.lower p <> "") by (destruct p; [congruence | discriminate]).
  now rewrite (split_from_run (Str.lower p)) by (auto using lower_spaces).
Qed.

(* ------------------------------------------------------------------ *)
(** ** Concrete runs *)

Import Sample.


Lemma rnd0_unit n : 0 <= rnd0 n < 1.
Proof.
  pose proof (Nat.mod_upper_bound n 10) as H.
  unfold rnd0, Qle, Qlt; cbn [Qnum Qden]. lia.
Qed.

Example normalize_collapses_whitespace :
  normalize " iPhone   15 " = "iphone 15" /\ normalize "iphone 15" = "iphone 15".
Proof. split; reflexivity. Qed.

Example round_half_to_even :
  round 2.675 2 = 2.68 /\ round 2.665 2 = 2.66 /\ round 4.25 1 = 4.2.
Proof. repeat split; reflexivity. Qed.

(** A write fault on the search log leaves the response of a search as it
    is without the fault. *)
Example record_fault_is_silent :
  fst (search_products rnd0 clock0 (fun c _ => match c with SearchRecord => true | _ => false end)
         "iPhone 15" None None None None one_product) =
  fst (search_products rnd0 clock0 no_fault "iPhone 15" None None None None one_product).
Proof. reflexivity. Qed.



Lemma persisted_prices_stable_witness :
  exists w1 w2,
    find_or_generate_prices rnd0 clock0 no_fault phone one_product =
    (Ok [phone_on_amazon], w1)
    /\ db w1 = Some phone_store /\ rpos w1 = 0%nat /\ cpos w1 = 0%nat /\ onext w1 = 2%N
    /\ find_or_generate_prices rnd0 clock0 no_fault phone w1 =
       (Ok [phone_on_amazon], w2)
    /\ db w2 = Some phone_store /\ rpos w2 = 0%nat /\ cpos w2 = 0%nat /\ onext w2 = 2%N.
Proof.
  apply (persisted_prices_stable rnd0 clock0 no_fault phone one_product phone_store 0%N);
    try reflexivity.
  vm_compute. discriminate.
Defined.

Lemma existing_product_returned_witness :
  exists w',
    ensure_product_in_db rnd0 clock0 no_fault " iPhone   15 " None None one_product =
    (Ok phone, w')
    /\ In phone (product phone_store)
    /\ db w' = Some phone_store /\ rpos w' = 0%nat /\ cpos w' = 0%nat /\ onext w' = 2%N.
Proof.
  apply (existing_product_returned rnd0 clock0 no_fault " iPhone   15 " None None
           one_product phone_store phone); reflexivity.
Defined.

Lemma search_filters_platforms_witness :
  exists resp w' r,
    search_products rnd0 clock0 no_fault "iPhone 15" None None (Some (Fin 500)) (Some (Fin 1500))
      one_product = (Ok resp, w')
    /\ results resp = [r]
    /\ (exists p, r_platforms r = [p] /\ platform p = "Amazon" /\ price p = 999)
    /\ r_name r = "iPhone 15".
Proof.
  destruct (search_filters_platforms rnd0 clock0 no_fault "iPhone 15" None None
              (Some (Fin 500)) (Some (Fin 1500)) one_product phone (tick_op one_product)
              [phone_on_amazon] (tick_op (tick_op one_product))
              eq_refl eq_refl eq_refl)
    as (resp & w' & r & Hrun & Hres & Hplat & _ & _ & Hname & _).
  exists resp, w', r. split; [assumption|]. split; [assumption|].
  split; [|assumption].
  specialize (Hplat (fun e => in_range (Some (Fin 500)) (Some (Fin 1500)) (pe_price e))
                    (fun e => in_range_spec _ _ _)).
  change (filter _ [phone_on_amazon]) with [phone_on_amazon] in Hplat.
  inversion Hplat as [|e p l l' Hp Hl Heq1 Heq2]. inversion Hl. subst.
  exists p. split; [reflexivity|]. destruct Hp as (Hn & Hpr & _).
  split; assumption.
Defined.

(** Against C3 as stated: with [price_min] NaN the stored Amazon entry is
    returned, although its price does not lie within the bounds: as
    floats compare, 999 is not at or above NaN. *)
Lemma nan_bound_keeps_every_entry :
  exists resp w' r p,
    search_products rnd0 clock0 no_fault "iPhone 15" None None (Some NaN) None
      one_product = (Ok resp, w')
    /\ results resp = [r]
    /\ In p (r_platforms r)
    /\ platform p = "Amazon" /\ price p = 999
    /\ ~ lies_within (Some NaN) None (price p).
Proof.
  pose proof (search_products_ok rnd0 clock0 no_fault "iPhone 15" None None
                (Some NaN) None one_product phone (tick_op one_product)
                [phone_on_amazon] (tick_op (tick_op one_product))
                eq_refl eq_refl eq_refl) as Hrun.
  eexists; eexists; eexists; eexists.
  split; [exact Hrun|]. split; [reflexivity|].
  split; [left; reflexivity|]. split; [reflexivity|]. split; [reflexivity|].
  intros [H _]. exact (H NaN eq_refl).
Qed.

Lemma search_record_written_witness :
  let run := search_products rnd0 clock0 no_fault "iPhone 15" None None None None
               one_product in
  exists s',
    db (snd run) = Some s'
    /\ match fst run with
       | Ok resp =>
           if no_fault SearchRecord (pred (opos (snd run)))
           then searchrecord s' = searchrecord phone_store
           else exists rec,
               searchrecord s' = (searchrecord phone_store ++ [rec])%list
               /\ sr_query rec = "iPhone 15"
       | Raised _ => searchrecord s' = searchrecord phone_store
       end.
Proof.
  intro run.
  apply (search_record_written rnd0 clock0 no_fault "iPhone 15" None None None None
           one_product phone_store (fst run) (snd run)).
  - reflexivity.
  - apply surjective_pairing.
Defined.

Lemma results_count_after_filter_witness :
  exists resp w' s' rec,
    find_or_generate_prices rnd0 clock0 no_fault phone (tick_op one_product) =
    (Ok [phone_on_amazon], tick_op (tick_op one_product))
    /\ search_products rnd0 clock0 no_fault "iPhone 15" None None (Some (Fin 1)) (Some (Fin 2))
         one_product = (Ok resp, w')
    /\ db w' = Some s'
    /\ searchrecord s' = [rec]
    /\ sr_results_count rec = 0%nat.
Proof.
  destruct (results_count_after_filter rnd0 clock0 no_fault "iPhone 15" None None
              (Some (Fin 1)) (Some (Fin 2)) one_product phone_store phone (tick_op one_product)
              [phone_on_amazon] (tick_op (tick_op one_product))
              eq_refl eq_refl eq_refl eq_refl eq_refl)
    as (resp & w' & s' & rec & r & Hrun & Hdb & Hlog & _ & _ & Hcount & _).
  exists resp, w', s', rec. repeat split; assumption.
Defined.

Lemma generated_entries_witness :
  exists es w' base,
    find_or_generate_prices rnd0 clock0 no_fault transient_phone no_store = (Ok es, w')
    /\ map pe_platform es = PLATFORMS
    /\ List.length es = 7%nat
    /\ Forall (fun e => pe_currency e = "INR") es
    /\ fst (uniform rnd0 499 49999 no_store) = Ok base
    /\ (forall i e, nth_error es i = Some e ->
                    fst (rand_price rnd0 base (advance (1 + 18 * i) 0 no_store)) =
                    Ok (pe_price e)).
Proof.
  apply (generated_entries rnd0 clock0 no_fault transient_phone no_store).
  left. left. reflexivity.
Defined.

Lemma ephemeral_matches_seeding_witness :
  exists es w' ss w0',
    find_or_generate_prices rnd0 clock0 no_fault transient_phone no_store = (Ok es, w')
    /\ db w' = db no_store
    /\ seed_entries rnd0 clock0 (oid_str 0%N) "iphone 15" empty_store = (Ok ss, w0')
    /\ Forall2 (same_synthesis "iphone 15") es ss.
Proof.
  apply (ephemeral_matches_seeding rnd0 clock0 no_fault transient_phone no_store
           (oid_str 0%N) "iphone 15" empty_store).
  - left. reflexivity.
  - reflexivity.
Defined.

Lemma trending_deals_items_witness :
  exists resp w',
    trending_deals rnd0 clock0 3 no_store = (Ok resp, w')
    /\ List.length (items resp) = Z.to_nat 3
    /\ ((0 <= 3)%Z -> Z.of_nat (List.length (items resp)) = 3%Z)
    /\ Forall (fun it => lowest_is_min it /\ platforms_sampled it) (items resp).
Proof.
  apply (trending_deals_items rnd0 clock0 rnd0_unit 3 no_store).
Defined.

(** Against C4 as stated: with a store configured, a search whose product
    lookup fails is answered by the error and writes no search record. *)
Lemma failed_search_is_not_recorded :
  let run := search_products rnd0 clock0 product_down "iPhone 15" None None None None
               one_product in
  fst run = Raised StoreError
  /\ log_of one_product = Some []
  /\ log_of (snd run) = Some [].
Proof. vm_compute. repeat split. Qed.

(** Against C5 as stated: from the same draws, the entries the product
    resolver seeds for a new product and the entries the price resolver
    generates without a store have the same prices but different URLs. *)
Lemma ephemeral_urls_differ_from_seeded :
  let seeded_world :=
    snd (ensure_product_in_db rnd0 clock0 no_fault "iPhone 15" None None empty_store) in
  let resolved :=
    fst (bind (ensure_product_in_db rnd0 clock0 no_fault "iPhone 15" None None)
           (find_or_generate_prices rnd0 clock0 no_fault) no_store) in
  exists seeded eph,
    option_map priceentry (db seeded_world) = Some seeded
    /\ resolved = Ok eph
    /\ map pe_price eph = map pe_price seeded
    /\ map pe_url eph <> map pe_url seeded.
Proof.
  vm_compute. do 2 eexists. split; [reflexivity|]. split; [reflexivity|].
  split; [reflexivity | discriminate].
Qed.

(** Against C8 as stated: a negative limit is answered with no items. *)
Lemma negative_limit_yields_no_items :
  exists resp w',
    trending_deals rnd0 clock0 (-1) no_store = (Ok resp, w')
    /\ items resp = []
    /\ Z.of_nat (List.length (items resp)) <> (-1)%Z.
Proof.
  vm_compute. do 2 eexists. split; [reflexivity|]. split; [reflexivity | discriminate].
Qed.

(** *** Runs of the further properties *)

Lemma generated_entries_well_formed_witness :
  exists es w',
    find_or_generate_prices rnd0 clock0 no_fault transient_phone no_store = (Ok es, w')
    /\ Forall entry_ok es.
Proof.
  apply (generated_entries_well_formed rnd0 clock0 no_fault rnd0_unit
           transient_phone no_store).
  left. left. reflexivity.
Defined.

Lemma product_without_store_witness :
  exists doc w',
    ensure_product_in_db rnd0 clock0 no_fault "iPhone 15" (Some "Apple") (Some "")
      no_store = (Ok doc, w')
    /\ p_id doc = None
    /\ p_name doc = Some "iPhone 15"
    /\ p_normalized_name doc = Some (normalize "iPhone 15")
    /\ p_brand doc = Some "Apple"
    /\ p_category doc = Some (category_or_general (Some ""))
    /\ (exists img, p_image doc = Some img /\ In img SAMPLE_IMAGES)
    /\ db w' = None /\ opos w' = opos no_store /\ onext w' = onext no_store.
Proof.
  apply (product_without_store rnd0 clock0 no_fault rnd0_unit
           "iPhone 15" (Some "Apple") (Some "") no_store).
  reflexivity.
Defined.

Lemma product_created_with_prices_witness :
  exists doc es w' s',
    ensure_product_in_db rnd0 clock0 no_fault "iPhone 15" None None empty_store =
    (Ok doc, w')
    /\ db w' = Some s'
    /\ product s' = [doc]
    /\ priceentry s' = es
    /\ searchrecord s' = []
    /\ p_id doc = Some 0%N
    /\ map pe_platform es = PLATFORMS
    /\ Forall (fun e => pe_product_id e = Some (oid_str 0%N)) es.
Proof.
  destruct (product_created_with_prices rnd0 clock0 no_fault
              (fun _ => eq_refl) (fun _ => eq_refl)
              "iPhone 15" None None empty_store (mkStore [] [] []) eq_refl eq_refl)
    as (doc & es & w' & s' & H1 & H2 & H3 & H4 & H5 & H6 & _ & _ & _ & _ & H7 & H8).
  exists doc, es, w', s'. repeat split; assumption.
Defined.

Lemma created_product_is_found_again_witness :
  exists doc w1 w2,
    ensure_product_in_db rnd0 clock0 no_fault "iPhone 15" None None empty_store =
    (Ok doc, w1)
    /\ ensure_product_in_db rnd0 clock0 no_fault " iphone   15 " (Some "Apple") None w1 =
       (Ok doc, w2)
    /\ db w2 = db w1
    /\ rpos w2 = rpos w1 /\ cpos w2 = cpos w1 /\ onext w2 = onext w1.
Proof.
  apply (created_product_is_found_again rnd0 clock0 no_fault
           (fun _ => eq_refl) (fun _ => eq_refl)
           "iPhone 15" None None " iphone   15 " (Some "Apple") None
           empty_store (mkStore [] [] [])); reflexivity.
Defined.

Lemma repeated_search_is_stable_witness :
  exists resp1 w1 r1 resp2 w2 r2 s1 s2,
    search_products rnd0 clock0 no_fault "iPhone 15" None None None (Some (Fin 5000))
      empty_store = (Ok resp1, w1)
    /\ results resp1 = [r1]
    /\ search_products rnd0 clock0 no_fault " iphone   15 " None (Some "Apple")
         None (Some (Fin 5000)) w1 = (Ok resp2, w2)
    /\ results resp2 = [r2]
    /\ r_id r2 = r_id r1 /\ r_name r2 = r_name r1
    /\ r_platforms r2 = r_platforms r1
    /\ db w1 = Some s1 /\ db w2 = Some s2
    /\ product s2 = product s1 /\ priceentry s2 = priceentry s1.
Proof.
  apply (repeated_search_is_stable rnd0 clock0 no_fault rnd0_unit
           (fun _ => eq_refl) (fun _ => eq_refl)
           "iPhone 15" None None " iphone   15 " None (Some "Apple")
           None (Some (Fin 5000)) empty_store (mkStore [] [] [])); reflexivity.
Defined.

Lemma search_without_store_witness :
  exists resp w' r,
    search_products rnd0 clock0 no_fault "iPhone 15" None (Some "Apple") None None
      no_store = (Ok resp, w')
    /\ db w' = None /\ opos w' = opos no_store
    /\ query resp = "iPhone 15"
    /\ filters resp = mkFilters None (Some "Apple") None None
    /\ results resp = [r]
    /\ r_name r = "iPhone 15"
    /\ r_brand r = Some "Apple"
    /\ r_category r = Some (category_or_general None)
    /\ Forall (fun p => (forall l, @None Float = Some (Fin l) -> l <= price p)
                      /\ (forall h, @None Float = Some (Fin h) -> price p <= h))
         (r_platforms r)
    /\ (@None Float = None -> @None Float = None ->
        map platform (r_platforms r) = PLATFORMS).
Proof.
  apply (search_without_store rnd0 clock0 no_fault rnd0_unit
           "iPhone 15" None (Some "Apple") None None no_store).
  reflexivity.
Defined.

Lemma search_only_appends_witness :
  exists s',
    db (snd (search_products rnd0 clock0 no_fault "Galaxy S23" None None None None
               one_product)) = Some s'
    /\ grows phone_store s'.
Proof.
  apply (search_only_appends rnd0 clock0 no_fault "Galaxy S23" None None None None
           one_product phone_store).
  reflexivity.
Defined.

Lemma search_keeps_names_unique_witness :
  exists s',
    db (snd (search_products rnd0 clock0 no_fault "Galaxy S23" None None None None
               one_product)) = Some s'
    /\ unique_names s'.
Proof.
  apply (search_keeps_names_unique rnd0 clock0 no_fault "Galaxy S23" None None None
           None one_product phone_store).
  - reflexivity.
  - unfold unique_names. simpl. constructor; [intros [] | constructor].
Defined.

Lemma inverted_bounds_keep_nothing_witness :
  exists resp w' r,
    search_products rnd0 clock0 no_fault "iPhone 15" None None (Some (Fin 2000)) (Some (Fin 1000))
      one_product = (Ok resp, w')
    /\ results resp = [r]
    /\ r_platforms r = [].
Proof.
  apply (inverted_bounds_keep_nothing rnd0 clock0 no_fault "iPhone 15" None None
           2000 1000 one_product phone (tick_op one_product)
           [phone_on_amazon] (tick_op (tick_op one_product))); reflexivity.
Defined.

Lemma recent_searches_lists_the_log_witness :
  exists resp w',
    recent_searches clock0 no_fault newest_first 8 searched = (Ok resp, w')
    /\ rs_items resp = map logged_of (newest_first [a_search] 8)
    /\ db w' = db searched.
Proof.
  apply (recent_searches_lists_the_log clock0 no_fault newest_first 8 searched
           (mkStore [phone] [phone_on_amazon] [a_search])); try reflexivity.
  vm_compute. discriminate.
Defined.

Lemma make_history_count_witness :
  exists pts,
    make_history_checked rnd0 clock0 1000 (-1) no_store =
    (Ok pts, advance (Z.to_nat (-1 + 1)) (Z.to_nat (-1 + 1)) no_store)
    /\ List.length pts = Z.to_nat (-1 + 1)
    /\ ((-1 < 0)%Z -> pts = []).
Proof.
  apply (make_history_count rnd0 clock0 1000 (-1) no_store). intro H. lia.
Defined.

Lemma normalize_idempotent_witness :
  normalize (normalize " iPhone   15 ") = normalize " iPhone   15 ".
Proof. apply (normalize_idempotent " iPhone   15 "). reflexivity. Defined.

Lemma normalize_whitespace_witness :
  normalize ("  " ++ ("iPhone" ++ "   " ++ "15") ++ " ") = normalize ("iPhone" ++ " " ++ "15").
Proof.
  apply (normalize_whitespace "  " "iPhone" "   " "15" " ");
    try reflexivity. discriminate.
Defined.
